(** * XstreamDL-CLI: the DASH manifest resolver and the segment model

    A shallow embedding of [XstreamDL_CLI/extractors/dash/parser.py]
    (class [DASHParser]) and [XstreamDL_CLI/models/segment.py] (class
    [Segment]), with the properties of the specification stated over it.

    Python values are modelled as follows: [int] is [Z], [float] is an
    IEEE-754 binary64 value of [spec_float], [None] is the [None] of
    [option], a list is a [list], and a raised exception is the [Err]
    branch of [result].

    [str] is [string], one [ascii] for each character, the [ascii] being
    the code point of the character: the texts of the model are the [str]
    values whose characters are all below U+0100.  It is not an encoding:
    a character from U+0100 on has no counterpart here, and a manifest
    that holds one is outside the development.  Among the characters of
    the model the decimal digits of Unicode, which are what [\d], [int]
    and the width of a format specification read, are the ten digits
    [0] to [9]. *)

From Stdlib Require Import ZArith List String Ascii Bool Lia.
From Stdlib Require Import DecimalString DecimalPos SpecFloat.
Import ListNotations.
Local Open Scope string_scope.
Local Open Scope Z_scope.

(** ** Exceptions and diagnostics *)

Inductive exn : Type :=
| TypeError
| ValueError
| IndexError
| ZeroDivisionError
| OverflowError.

Inductive result (A : Type) : Type :=
| Ok (a : A)
| Err (e : exn).
Arguments Ok {A} a.
Arguments Err {A} e.

(** A computation of the parser: the lines printed by [click.secho] so far,
    and either the value or the exception that stopped it. *)
Definition M (A : Type) : Type := (list string * result A)%type.

Definition ret {A} (a : A) : M A := ([], Ok a).
Definition raise {A} (e : exn) : M A := ([], Err e).
Definition secho (msg : string) : M unit := ([msg], Ok tt).
Definition lift {A} (r : result A) : M A := ([], r).

Definition bind {A B} (m : M A) (f : A -> M B) : M B :=
  match m with
  | (out, Err e) => (out, Err e)
  | (out, Ok a) => let (out', r) := f a in ((out ++ out')%list, r)
  end.

Definition rbind {A B} (r : result A) (f : A -> result B) : result B :=
  match r with
  | Ok a => f a
  | Err e => Err e
  end.

Declare Scope py_scope.
Delimit Scope py_scope with py.
Notation "x <- m ;; k" := (bind m (fun x => k))
  (at level 61, m at next level, right associativity) : py_scope.
Notation "m ;;; k" := (bind m (fun _ => k))
  (at level 61, right associativity) : py_scope.
Notation "x <-r m ;; k" := (rbind m (fun x => k))
  (at level 61, m at next level, right associativity) : py_scope.
Local Open Scope py_scope.

Definition printed {A} (m : M A) : list string := fst m.
Definition outcome {A} (m : M A) : result A := snd m.

(** ** Strings *)

Module Str.

(** [str(n)] for an [int]. *)
Definition of_Z (n : Z) : string := NilZero.string_of_int (Z.to_int n).

Fixpoint repeat_char (c : ascii) (n : nat) : string :=
  match n with
  | O => EmptyString
  | S k => String c (repeat_char c k)
  end.

(** [pat in s]. *)
Fixpoint contains (pat s : string) : bool :=
  prefix pat s ||
  match s with
  | EmptyString => false
  | String _ s' => contains pat s'
  end.

(** [s.replace(old, new)] for a non-empty [old] (every call of the parser
    passes a literal placeholder): occurrences are replaced from the left
    and do not overlap.  [skip] counts the characters of a matched [old]
    still to be dropped. *)
Fixpoint replace_from (old new s : string) (skip : nat) : string :=
  match s with
  | EmptyString => EmptyString
  | String c s' =>
      match skip with
      | S k => replace_from old new s' k
      | O =>
          if prefix old s
          then new ++ replace_from old new s' (String.length old - 1)
          else String c (replace_from old new s' 0)
      end
  end.

Definition replace (old new s : string) : string := replace_from old new s 0.

(** A decimal digit (Unicode category Nd): below U+0100 these are [0] to
    [9], U+0030 to U+0039. *)
Definition is_digit (c : ascii) : bool :=
  ((48 <=? nat_of_ascii c) && (nat_of_ascii c <=? 57))%nat.

Definition digit_val (c : ascii) : Z := Z.of_nat (nat_of_ascii c) - 48.

(** The longest prefix of decimal digits, and what follows it. *)
Fixpoint span_digits (s : string) : string * string :=
  match s with
  | EmptyString => (EmptyString, EmptyString)
  | String c s' =>
      if is_digit c
      then let (ds, rest) := span_digits s' in (String c ds, rest)
      else (EmptyString, s)
  end.

(** [int(ds)] for a string of decimal digits. *)
Fixpoint int_digits_from (acc : Z) (ds : string) : Z :=
  match ds with
  | EmptyString => acc
  | String c ds' => int_digits_from (10 * acc + digit_val c) ds'
  end.

Definition int_of_digits (ds : string) : Z := int_digits_from 0 ds.

Fixpoint strip_prefix (p s : string) : option string :=
  match p, s with
  | EmptyString, _ => Some s
  | String a p', String b s' => if Ascii.eqb a b then strip_prefix p' s' else None
  | String _ _, EmptyString => None
  end.

Definition newline : ascii := ascii_of_nat 10.

End Str.

(** ** The format mini-language, for [int] values

    [format(n, spec)] as used by the f-strings of the program.  The grammar
    is [[[fill]align][sign]["0"][width][type]]; the alternate form, the
    grouping options and the precision are not produced by any format
    string of the program and are not modelled.  As in CPython, a
    specification with more than one character left where the presentation
    type is expected is rejected with [ValueError], and so is a width
    that does not fit the [Py_ssize_t] it is read into ("Too many decimal
    digits in format string").

    The padded text is built whatever its length: [MemoryError], which the
    interpreter raises when it cannot allocate a text, is not modelled,
    here as for every other allocation of the program; the properties of
    padded numbers are stated for widths far below that. *)

Module Format.

Record spec : Type := {
  fill : option ascii;
  align : option ascii;
  sign : option ascii;
  zero : bool;
  width : nat
}.

Definition is_align (c : ascii) : bool :=
  Ascii.eqb c "<" || Ascii.eqb c ">" || Ascii.eqb c "=" || Ascii.eqb c "^".

Definition is_sign (c : ascii) : bool :=
  Ascii.eqb c "+" || Ascii.eqb c "-" || Ascii.eqb c " ".

Definition parse_fill_align (s : string) : option ascii * option ascii * string :=
  match s with
  | String f (String a rest) =>
      if is_align a then (Some f, Some a, rest)
      else if is_align f then (None, Some f, String a rest)
      else (None, None, s)
  | String a rest =>
      if is_align a then (None, Some a, rest) else (None, None, s)
  | EmptyString => (None, None, s)
  end.

Definition parse_sign (s : string) : option ascii * string :=
  match s with
  | String c rest => if is_sign c then (Some c, rest) else (None, s)
  | EmptyString => (None, s)
  end.

Definition parse_zero (s : string) : bool * string :=
  match s with
  | String c rest => if Ascii.eqb c "0" then (true, rest) else (false, s)
  | EmptyString => (false, s)
  end.

(** [PY_SSIZE_T_MAX] of a 64-bit build: the largest width that is read. *)
Definition max_width : Z := 2 ^ 63 - 1.

Definition parse (s : string) : result spec :=
  let '(f, a, s1) := parse_fill_align s in
  let '(sg, s2) := parse_sign s1 in
  let '(z, s3) := parse_zero s2 in
  let '(w, s4) := Str.span_digits s3 in
  if max_width <? Str.int_of_digits w then Err ValueError
  else
    let sp := {| fill := f; align := a; sign := sg; zero := z;
                 width := Z.to_nat (Str.int_of_digits w) |} in
    match s4 with
    | EmptyString => Ok sp
    | String c EmptyString => if Ascii.eqb c "d" then Ok sp else Err ValueError
    | String _ (String _ _) => Err ValueError
    end.

(** The sign text and the digits of [n] under the sign option. *)
Definition sign_and_digits (sg : option ascii) (n : Z) : string * string :=
  if n <? 0 then ("-", Str.of_Z (- n))
  else match sg with
       | Some c => if Ascii.eqb c "-" then ("", Str.of_Z n)
                   else (String c "", Str.of_Z n)
       | None => ("", Str.of_Z n)
       end.

Definition render (sp : spec) (n : Z) : string :=
  let (sg, ds) := sign_and_digits (sign sp) n in
  let fillc :=
    match fill sp with
    | Some c => c
    | None => if zero sp then "0"%char else " "%char
    end in
  let al :=
    match align sp with
    | Some a => a
    | None => if zero sp then "="%char else ">"%char
    end in
  let pad := (width sp - (String.length sg + String.length ds))%nat in
  if Ascii.eqb al "<" then sg ++ ds ++ Str.repeat_char fillc pad
  else if Ascii.eqb al "=" then sg ++ Str.repeat_char fillc pad ++ ds
  else if Ascii.eqb al "^" then
    Str.repeat_char fillc (pad / 2) ++ sg ++ ds
      ++ Str.repeat_char fillc (pad - pad / 2)
  else Str.repeat_char fillc pad ++ sg ++ ds.

Definition format_int (n : Z) (s : string) : result string :=
  sp <-r parse s ;; Ok (render sp n).

End Format.

(** ** Floating point

    A Python [float] is an IEEE-754 binary64 number.  [a / b] on two [int]s
    is the correctly rounded quotient and raises on a zero divisor or an
    overflow; [x / y] on two [float]s raises on a zero divisor only;
    [round(x)] rounds halves to the even neighbour and raises on an
    infinity or a NaN. *)

Module Float.

Definition prec : Z := 53.
Definition emax : Z := 1024.

Definition float : Type := spec_float.

(** [0.0] *)
Definition zero : float := S754_zero false.

(** [a / b] for [a], [b] of type [int]. *)
Definition int_truediv (a b : Z) : result float :=
  if b =? 0 then Err ZeroDivisionError
  else if a =? 0 then Ok (S754_zero (b <? 0))
  else
    let '(m, e, l) := SFdiv_core_binary prec emax (Z.abs a) 0 (Z.abs b) 0 in
    match binary_round_aux prec emax (xorb (a <? 0) (b <? 0)) m e l with
    | S754_infinity _ => Err OverflowError
    | q => Ok q
    end.

(** [x / y] for [x], [y] of type [float]. *)
Definition truediv (x y : float) : result float :=
  match y with
  | S754_zero _ => Err ZeroDivisionError
  | _ => Ok (SFdiv prec emax x y)
  end.

(** The integer nearest to [m * 2 ^ e], halves going to the even one. *)
Definition nearest_even (m : positive) (e : Z) : Z :=
  match e with
  | Zneg k =>
      let d := 2 ^ Zpos k in
      let q := Zpos m / d in
      let r := Zpos m mod d in
      match 2 * r ?= d with
      | Lt => q
      | Gt => q + 1
      | Eq => if Z.even q then q else q + 1
      end
  | _ => Zpos m * 2 ^ e
  end.

(** [int(round(x))] *)
Definition round (x : float) : result Z :=
  match x with
  | S754_zero _ => Ok 0
  | S754_finite s m e =>
      Ok (if s then - nearest_even m e else nearest_even m e)
  | S754_infinity _ => Err OverflowError
  | S754_nan => Err ValueError
  end.

(** [float(n)] for a small [int], used to write manifests down. *)
Definition of_Z (n : Z) : float := binary_normalize prec emax n 0 false.

End Float.

(** ** [models/segment.py]: class [Segment]

    [duration] holds a [float]; it is an [option] because the resolver
    stores a Period's duration in it, which is [None] when the manifest
    gives none. *)

Record Segment : Type := {
  name : string;
  index : Z;
  suffix : string;
  url : string;
  filesize : Z;
  duration : option Float.float;
  byterange : list Z;
  content : list string;
  folder : option string;
  segment_type : string
}.

Module Seg.

(** [Segment.__init__] *)
Definition init : Segment := {|
  name := "";
  index := 0;
  suffix := ".ts";
  url := "";
  filesize := 0;
  duration := Some Float.zero;
  byterange := [];
  content := [];
  folder := None;
  segment_type := "normal"
|}.

(** The format specification ["0>4"], parsed. *)
Definition spec_0r4 : Format.spec := {|
  Format.fill := Some "0"%char;
  Format.align := Some ">"%char;
  Format.sign := None;
  Format.zero := false;
  Format.width := 4
|}.

(** [f'{index:0>4}{suffix}'] *)
Definition make_name (i : Z) (sfx : string) : string :=
  Format.render spec_0r4 i ++ sfx.

(** [s.index = i; s.name = n] *)
Definition with_index_name (i : Z) (n : string) (s : Segment) : Segment := {|
  name := n;
  index := i;
  suffix := suffix s;
  url := url s;
  filesize := filesize s;
  duration := duration s;
  byterange := byterange s;
  content := content s;
  folder := folder s;
  segment_type := segment_type s
|}.

(** [Segment.add_offset_for_name] *)
Definition add_offset_for_name (offset : Z) (s : Segment) : Segment :=
  let i := index s + offset in
  with_index_name i (make_name i (suffix s)) s.

(** [Segment.set_index] *)
Definition set_index (i : Z) (s : Segment) : Segment :=
  with_index_name i (make_name i (suffix s)) s.

(** [Segment.set_folder] *)
Definition set_folder (f : string) (s : Segment) : Segment := {|
  name := name s;
  index := index s;
  suffix := suffix s;
  url := url s;
  filesize := filesize s;
  duration := duration s;
  byterange := byterange s;
  content := content s;
  folder := Some f;
  segment_type := segment_type s
|}.

(** The naming convention in the words of the specification: the decimal
    text of the index, preceded by as many zeros as it takes to reach four
    characters, then the suffix. *)
Definition zero_padded4 (i : Z) : string :=
  Str.repeat_char "0" (4 - String.length (Str.of_Z i)) ++ Str.of_Z i.

Definition name_follows_index (s : Segment) : Prop :=
  name s = zero_padded4 (index s) ++ suffix s.

End Seg.

(** ** The manifest object model

    The node classes ([extractors/dash/mpd.py], [extractors/dash/childs/])
    are collaborators of the resolver: each node is a record of its
    attributes and, for every tag the resolver looks up with [find], the
    ordered list of its children with that tag. *)

(** Modelled from the spec: class [S] ([childs/s.py]), an entry of a
    timeline: a tick duration [d] and a repeat count [r], the number of
    consecutive segments the entry stands for. *)
Record S : Type := {
  s_d : Z;
  s_r : nat
}.

(** Modelled from the spec: class [SegmentTimeline]
    ([childs/segmenttimeline.py]); [tl_S] is [find('S')]. *)
Record SegmentTimeline : Type := {
  tl_S : list S
}.

(** Modelled from the spec: class [SegmentTemplate]
    ([childs/segmenttemplate.py]).  [st_get_url] is the raw
    initialization template returned by [get_url()], [None] when the
    template has none (the case [walk_s] tests for); [st_get_media_url] is
    the raw media template returned by [get_media_url()];
    [st_SegmentTimeline] is [find('SegmentTimeline')]. *)
Record SegmentTemplate : Type := {
  st_timescale : Z;
  st_duration : Z;
  st_startNumber : Z;
  st_presentationTimeOffset : Z;
  st_get_url : option string;
  st_get_media_url : string;
  st_SegmentTimeline : list SegmentTimeline
}.

(** Modelled from the spec: class [ContentProtection]
    ([childs/contentprotection.py]), a scheme identifier and an inline key
    id; the resolver stores it and never reads it. *)
Record ContentProtection : Type := {
  cp_schemeIdUri : option string;
  cp_default_KID : option string
}.

(** Modelled from the spec: class [Role] ([childs/role.py]). *)
Record Role : Type := {
  role_value : option string
}.

(** Modelled from the spec: class [BaseURL] ([childs/baseurl.py]). *)
Record BaseURL : Type := {
  innertext : string
}.

(** Modelled from the spec: class [Representation]
    ([childs/representation.py]); the last four fields are [find] at the
    tags [BaseURL], [SegmentTemplate], [SegmentTimeline] and
    [ContentProtection]. *)
Record Representation : Type := {
  rep_id : string;
  rep_bandwidth : Z;
  rep_codecs : option string;
  rep_mimeType : option string;
  rep_width : option Z;
  rep_height : option Z;
  rep_BaseURL : list BaseURL;
  rep_SegmentTemplate : list SegmentTemplate;
  rep_SegmentTimeline : list SegmentTimeline;
  rep_ContentProtection : list ContentProtection
}.

(** Modelled from the spec: class [AdaptationSet]
    ([childs/adaptationset.py]); the last three fields are [find] at the
    tags [Role], [SegmentTemplate] and [Representation]. *)
Record AdaptationSet : Type := {
  as_id : option string;
  as_lang : option string;
  as_codecs : option string;
  as_mimeType : option string;
  as_width : option Z;
  as_height : option Z;
  as_Role : list Role;
  as_SegmentTemplate : list SegmentTemplate;
  as_Representation : list Representation
}.

(** Modelled from the spec: class [Period] ([childs/period.py]);
    [period_duration] is in seconds, [None] when the attribute is absent. *)
Record Period : Type := {
  period_duration : option Float.float;
  period_AdaptationSet : list AdaptationSet
}.

(** Modelled from the spec: class [MPD] ([mpd.py]).
    [mpd_mediaPresentationDuration] tells whether the object carries the
    attribute, which is what [hasattr] tests, and its value:
    [Some (Some d)] is an attribute of value [d], [Some None] an attribute
    of value [None], and [None] an object without the attribute.  By the
    node contract of the specification an attribute that the manifest does
    not give is carried with the value [None], as [Period.duration] is:
    the node of a manifest without presentation duration is [Some None]. *)
Record MPD : Type := {
  mpd_mediaPresentationDuration : option (option Float.float);
  mpd_BaseURL : list BaseURL;
  mpd_Period : list Period
}.

(** [p.duration = d] *)
Definition set_period_duration (d : option Float.float) (p : Period) : Period := {|
  period_duration := d;
  period_AdaptationSet := period_AdaptationSet p
|}.

(** ** Segments of a DASH stream *)

Module DSeg.

(** Modelled from the spec: the setters of [DASHSegment]
    ([extractors/dash/segment.py]) used by the stream: each stores one
    field. *)
Definition set_url (u : string) (s : Segment) : Segment := {|
  name := name s;
  index := index s;
  suffix := suffix s;
  url := u;
  filesize := filesize s;
  duration := duration s;
  byterange := byterange s;
  content := content s;
  folder := folder s;
  segment_type := segment_type s
|}.

(** Modelled from the spec: [DASHSegment.set_duration]
    ([extractors/dash/segment.py]). *)
Definition set_duration (d : option Float.float) (s : Segment) : Segment := {|
  name := name s;
  index := index s;
  suffix := suffix s;
  url := url s;
  filesize := filesize s;
  duration := d;
  byterange := byterange s;
  content := content s;
  folder := folder s;
  segment_type := segment_type s
|}.

(** Modelled from the spec: the type tag of a segment
    ([extractors/dash/segment.py]): ["normal"], ["init"] for the leading
    initialization entry, ["subtitle"] for a direct subtitle link. *)
Definition set_type (t : string) (s : Segment) : Segment := {|
  name := name s;
  index := index s;
  suffix := suffix s;
  url := url s;
  filesize := filesize s;
  duration := duration s;
  byterange := byterange s;
  content := content s;
  folder := folder s;
  segment_type := t
|}.

End DSeg.

(** ** The stream aggregate *)

(** The identity key of a stream: the id of the AdaptationSet, which may be
    absent, and the id of the Representation. *)
Definition SKey : Type := (option string * string)%type.

(** [a == b] on keys. *)
Definition skey_eqb (a b : SKey) : bool :=
  match fst a, fst b with
  | Some x, Some y => String.eqb x y
  | None, None => true
  | _, _ => false
  end && String.eqb (snd a) (snd b).

(** Modelled from the spec: class [DASHStream]
    ([extractors/dash/stream.py]): the identity key, the metadata of the
    track, the protection descriptors and the ordered segments. *)
Record DASHStream : Type := {
  sindex : nat;
  stream_name : string;
  home_url : string;
  base_url : string;
  save_dir : string;
  skey : SKey;
  lang : option string;
  bandwidth : Z;
  codecs : option string;
  stream_type : option string;
  resolution : option Z * option Z;
  keys : list ContentProtection;
  segments : list Segment
}.

(** [s.segments = l] *)
Definition with_segments (l : list Segment) (s : DASHStream) : DASHStream := {|
  sindex := sindex s; stream_name := stream_name s; home_url := home_url s;
  base_url := base_url s; save_dir := save_dir s; skey := skey s;
  lang := lang s; bandwidth := bandwidth s; codecs := codecs s;
  stream_type := stream_type s; resolution := resolution s; keys := keys s;
  segments := l
|}.

(** [s.base_url = u] *)
Definition with_base_url (u : string) (s : DASHStream) : DASHStream := {|
  sindex := sindex s; stream_name := stream_name s; home_url := home_url s;
  base_url := u; save_dir := save_dir s; skey := skey s;
  lang := lang s; bandwidth := bandwidth s; codecs := codecs s;
  stream_type := stream_type s; resolution := resolution s; keys := keys s;
  segments := segments s
|}.

(** Modelled from the spec: [DASHStream.set_skey]
    ([extractors/dash/stream.py]): the key is the pair of the two ids. *)
Definition set_skey (aid : option string) (rid : string) (s : DASHStream) : DASHStream := {|
  sindex := sindex s; stream_name := stream_name s; home_url := home_url s;
  base_url := base_url s; save_dir := save_dir s; skey := (aid, rid);
  lang := lang s; bandwidth := bandwidth s; codecs := codecs s;
  stream_type := stream_type s; resolution := resolution s; keys := keys s;
  segments := segments s
|}.

(** Modelled from the spec: [DASHStream.set_lang]
    ([extractors/dash/stream.py]). *)
Definition set_lang (l : option string) (s : DASHStream) : DASHStream := {|
  sindex := sindex s; stream_name := stream_name s; home_url := home_url s;
  base_url := base_url s; save_dir := save_dir s; skey := skey s;
  lang := l; bandwidth := bandwidth s; codecs := codecs s;
  stream_type := stream_type s; resolution := resolution s; keys := keys s;
  segments := segments s
|}.

(** Modelled from the spec: [DASHStream.set_bandwidth]
    ([extractors/dash/stream.py]). *)
Definition set_bandwidth (b : Z) (s : DASHStream) : DASHStream := {|
  sindex := sindex s; stream_name := stream_name s; home_url := home_url s;
  base_url := base_url s; save_dir := save_dir s; skey := skey s;
  lang := lang s; bandwidth := b; codecs := codecs s;
  stream_type := stream_type s; resolution := resolution s; keys := keys s;
  segments := segments s
|}.

(** Modelled from the spec: [DASHStream.set_codecs]
    ([extractors/dash/stream.py]). *)
Definition set_codecs (c : option string) (s : DASHStream) : DASHStream := {|
  sindex := sindex s; stream_name := stream_name s; home_url := home_url s;
  base_url := base_url s; save_dir := save_dir s; skey := skey s;
  lang := lang s; bandwidth := bandwidth s; codecs := c;
  stream_type := stream_type s; resolution := resolution s; keys := keys s;
  segments := segments s
|}.

(** Modelled from the spec: [DASHStream.set_stream_type]
    ([extractors/dash/stream.py]): the stream records the resolved mime
    type. *)
Definition set_stream_type (m : option string) (s : DASHStream) : DASHStream := {|
  sindex := sindex s; stream_name := stream_name s; home_url := home_url s;
  base_url := base_url s; save_dir := save_dir s; skey := skey s;
  lang := lang s; bandwidth := bandwidth s; codecs := codecs s;
  stream_type := m; resolution := resolution s; keys := keys s;
  segments := segments s
|}.

(** Modelled from the spec: [DASHStream.set_resolution]
    ([extractors/dash/stream.py]). *)
Definition set_resolution (w h : option Z) (s : DASHStream) : DASHStream := {|
  sindex := sindex s; stream_name := stream_name s; home_url := home_url s;
  base_url := base_url s; save_dir := save_dir s; skey := skey s;
  lang := lang s; bandwidth := bandwidth s; codecs := codecs s;
  stream_type := stream_type s; resolution := (w, h); keys := keys s;
  segments := segments s
|}.

(** Modelled from the spec: [DASHStream.append_key]
    ([extractors/dash/stream.py]): the descriptor is appended to the key
    list. *)
Definition append_key (k : ContentProtection) (s : DASHStream) : DASHStream := {|
  sindex := sindex s; stream_name := stream_name s; home_url := home_url s;
  base_url := base_url s; save_dir := save_dir s; skey := skey s;
  lang := lang s; bandwidth := bandwidth s; codecs := codecs s;
  stream_type := stream_type s; resolution := resolution s;
  keys := (keys s ++ [k])%list;
  segments := segments s
|}.

(** [l[-1]], raising [IndexError] on an empty list. *)
Definition last_item {A} (l : list A) : result A :=
  match rev l with
  | x :: _ => Ok x
  | [] => Err IndexError
  end.

(** [l[-1] = f(l[-1])], raising [IndexError] on an empty list. *)
Fixpoint modify_last {A} (f : A -> A) (l : list A) : result (list A) :=
  match l with
  | [] => Err IndexError
  | [x] => Ok [f x]
  | x :: rest => rest' <-r modify_last f rest ;; Ok (x :: rest')
  end.

Section Resolver.

(** The URL-resolution collaborator: [fix_url home_url base_url url] is the
    absolute form of [url]. *)
Variable fix_url : string -> string -> string -> string.

(** [args.save_dir] and [args.split] of [CmdArgs]. *)
Variable args_save_dir : string.
Variable args_split : bool.

(** *** Accumulation of segments

    The stream keeps, as the last element of [segments], the segment that
    the next URL will fill: the resolver sets the duration of the last
    segment before it sets its media URL ([walk_s]), and [walk_period]
    drops a last segment whose URL is still empty. *)

(** Modelled from the spec: [DASHStream.append_segment]
    ([extractors/dash/stream.py]): a fresh segment, indexed by its
    position and bound to the destination folder, is opened at the end. *)
Definition append_segment (s : DASHStream) : DASHStream :=
  let i := Z.of_nat (List.length (segments s)) in
  with_segments
    (segments s ++ [Seg.set_folder (save_dir s) (Seg.set_index i Seg.init)])%list s.

(** Modelled from the spec: the constructor of [DASHStream]
    ([extractors/dash/stream.py]): no metadata yet, and one open segment. *)
Definition new_stream (sidx : nat) (nm home base dir : string) : DASHStream :=
  append_segment {|
    sindex := sidx; stream_name := nm; home_url := home; base_url := base;
    save_dir := dir; skey := (None, ""); lang := None; bandwidth := 0;
    codecs := None; stream_type := None; resolution := (None, None);
    keys := []; segments := []
  |}.

(** Modelled from the spec: [DASHStream.set_segment_duration]
    ([extractors/dash/stream.py]): the duration of the last segment. *)
Definition set_segment_duration (d : Float.float) (s : DASHStream) : result DASHStream :=
  l <-r modify_last (DSeg.set_duration (Some d)) (segments s) ;;
  Ok (with_segments l s).

(** Modelled from the spec: [DASHStream.set_segments_duration]
    ([extractors/dash/stream.py]): the duration of every segment. *)
Definition set_segments_duration (d : Float.float) (s : DASHStream) : DASHStream :=
  with_segments (map (DSeg.set_duration (Some d)) (segments s)) s.

(** Modelled from the spec: [DASHStream.set_init_url]
    ([extractors/dash/stream.py]): the last segment becomes the
    initialization entry, with the resolved URL, and a new one is opened. *)
Definition set_init_url (u : string) (s : DASHStream) : result DASHStream :=
  l <-r modify_last
         (fun g => DSeg.set_type "init"
                     (DSeg.set_url (fix_url (home_url s) (base_url s) u) g))
         (segments s) ;;
  Ok (append_segment (with_segments l s)).

(** Modelled from the spec: [DASHStream.set_media_url]
    ([extractors/dash/stream.py]): the last segment receives the resolved
    URL, and a new one is opened. *)
Definition set_media_url (u : string) (s : DASHStream) : result DASHStream :=
  l <-r modify_last (DSeg.set_url (fix_url (home_url s) (base_url s) u))
         (segments s) ;;
  Ok (append_segment (with_segments l s)).

(** Modelled from the spec: [DASHStream.set_subtitle_url]
    ([extractors/dash/stream.py]): the last segment is the direct subtitle
    link, its URL the literal text. *)
Definition set_subtitle_url (u : string) (s : DASHStream) : result DASHStream :=
  l <-r modify_last (fun g => DSeg.set_type "subtitle" (DSeg.set_url u g))
         (segments s) ;;
  Ok (with_segments l s).

(** Modelled from the spec: [DASHStream.fix_base_url]
    ([extractors/dash/stream.py]): the base of the stream becomes the
    [BaseURL] text combined with the resolved absolute base. *)
Definition fix_base_url (u : string) (s : DASHStream) : DASHStream :=
  with_base_url (fix_url (home_url s) (base_url s) u) s.

(** Modelled from the spec: [DASHStream.base2url]
    ([extractors/dash/stream.py]): the last segment is the whole file at
    the base of the stream, with the given duration. *)
Definition base2url (d : option Float.float) (s : DASHStream) : result DASHStream :=
  l <-r modify_last (fun g => DSeg.set_url (base_url s) (DSeg.set_duration d g))
         (segments s) ;;
  Ok (with_segments l s).

(** Modelled from the spec: [DASHStream.update]
    ([extractors/dash/stream.py]): the segments of [other] are appended
    after those of [s], their indices shifted by the number of segments
    already there ([Segment.add_offset_for_name]). *)
Definition update (s other : DASHStream) : DASHStream :=
  let offset := Z.of_nat (List.length (segments s)) in
  with_segments
    (segments s ++ map (Seg.add_offset_for_name offset) (segments other))%list s.

(** *** Matching of the two regular expressions *)

(** [\$Number%(\d+)d\$] at the head of [s]: the group. *)
Definition number_fmt_here (s : string) : option string :=
  match Str.strip_prefix "$Number%" s with
  | Some rest =>
      let (ds, rest') := Str.span_digits rest in
      match ds with
      | EmptyString => None
      | String _ _ => if prefix "d$" rest' then Some ds else None
      end
  | None => None
  end.

(** [re.match('.*?\$Number%(\d+)d\$', s)]: the group of the leftmost
    match; [.] does not cross a newline (U+000A), and [\d] is a decimal
    digit of Unicode, which for the characters of the model (all below
    U+0100) is one of [0] to [9]. *)
Fixpoint re_number_fmt (s : string) : option string :=
  match number_fmt_here s with
  | Some ds => Some ds
  | None =>
      match s with
      | EmptyString => None
      | String c s' =>
          if Ascii.eqb c Str.newline then None else re_number_fmt s'
      end
  end.

(** [(.*?)\)] at the head of [s]: the group. *)
Fixpoint until_paren (s : string) : option string :=
  match s with
  | EmptyString => None
  | String c s' =>
      if Ascii.eqb c ")" then Some EmptyString
      else if Ascii.eqb c Str.newline then None
      else option_map (String c) (until_paren s')
  end.

Definition audio_lang_here (s : string) : option string :=
  match Str.strip_prefix "as=audio_" s with
  | Some rest => until_paren rest
  | None => None
  end.

(** [re.match('.*?as=audio_(.*?)\)', s)]: the group of the leftmost
    match. *)
Fixpoint re_audio_lang (s : string) : option string :=
  match audio_lang_here s with
  | Some l => Some l
  | None =>
      match s with
      | EmptyString => None
      | String c s' =>
          if Ascii.eqb c Str.newline then None else re_audio_lang s'
      end
  end.

(** [if old in s: s = s.replace(old, new)] *)
Definition subst (old new s : string) : string :=
  if Str.contains old s then Str.replace old new s else s.

(** *** [walk_s] *)

(** The two running counters of [walk_s]. *)
Record Counters : Type := {
  time_offset : Z;
  start_number : Z
}.

(** The media URL of one segment of the run [s], lines 196 to 211, and
    the counters after it. *)
Definition walk_s_media_url (st : SegmentTemplate) (representation : Representation)
    (s : S) (c : Counters) : result (string * Counters) :=
  let media_url := st_get_media_url st in
  let media_url := subst "$Bandwidth$" (Str.of_Z (rep_bandwidth representation)) media_url in
  let '(media_url, number) :=
    if Str.contains "$Number$" media_url
    then (Str.replace "$Number$" (Str.of_Z (start_number c)) media_url,
          start_number c + 1)
    else (media_url, start_number c) in
  r <-r match re_number_fmt media_url with
        | Some length =>
            let old := "$Number%" ++ length ++ "d$" in
            new <-r Format.format_int number ">int(length)" ;;
            Ok (Str.replace old new media_url, number + 1)
        | None => Ok (media_url, number)
        end ;;
  let '(media_url, number) := r in
  let media_url := subst "$RepresentationID$" (rep_id representation) media_url in
  let '(media_url, time) :=
    if Str.contains "$Time$" media_url
    then (Str.replace "$Time$" (Str.of_Z (time_offset c)) media_url,
          time_offset c + s_d s)
    else (media_url, time_offset c) in
  Ok (media_url, {| time_offset := time; start_number := number |}).

(** One turn of the inner loop, lines 196 to 213. *)
Definition walk_s_segment (st : SegmentTemplate) (representation : Representation)
    (s : S) (interval : Float.float) (state : Counters * DASHStream)
    : result (Counters * DASHStream) :=
  let (c, stream) := state in
  r <-r walk_s_media_url st representation s c ;;
  let (media_url, c') := r in
  stream <-r set_segment_duration interval stream ;;
  stream <-r set_media_url media_url stream ;;
  Ok (c', stream).

(** [for number in range(n): state = body(state)] *)
Fixpoint for_range {St : Type} (n : nat) (body : St -> result St) (state : St)
    : result St :=
  match n with
  | O => Ok state
  | Datatypes.S k => state' <-r body state ;; for_range k body state'
  end.

(** The outer loop, lines 193 to 213. *)
Fixpoint walk_s_runs (st : SegmentTemplate) (representation : Representation)
    (ss : list S) (state : Counters * DASHStream) : result (Counters * DASHStream) :=
  match ss with
  | [] => Ok state
  | s :: ss' =>
      interval <-r Float.int_truediv (s_d s) (st_timescale st) ;;
      state' <-r for_range (s_r s) (walk_s_segment st representation s interval) state ;;
      walk_s_runs st representation ss' state'
  end.

(** Lines 177 to 189: the initialization URL, when the template has one. *)
Definition walk_s_init (st : SegmentTemplate) (representation : Representation)
    (stream : DASHStream) : result DASHStream :=
  match st_get_url st with
  | Some init_url =>
      let init_url := subst "$RepresentationID$" (rep_id representation) init_url in
      let init_url := subst "$Bandwidth$" (Str.of_Z (rep_bandwidth representation)) init_url in
      let stream :=
        match re_audio_lang init_url with
        | Some _lang => set_lang (Some _lang) stream
        | None => stream
        end in
      set_init_url init_url stream
  | None => Ok stream
  end.

Definition walk_s (segmenttimeline : SegmentTimeline) (st : SegmentTemplate)
    (representation : Representation) (stream : DASHStream) : result DASHStream :=
  stream <-r walk_s_init st representation stream ;;
  let ss := tl_S segmenttimeline in
  let c := {| time_offset := st_presentationTimeOffset st;
              start_number := st_startNumber st |} in
  r <-r walk_s_runs st representation ss (c, stream) ;;
  Ok (snd r).

(** *** [generate_v1] *)

(** [range(a, b)] *)
Definition range (a b : Z) : list Z :=
  map (fun k => a + Z.of_nat k) (seq 0 (Z.to_nat (b - a))).

(** The media URL for [number], lines 223 to 231. *)
Definition generate_v1_media_url (rid : string) (st : SegmentTemplate) (number : Z)
    : result string :=
  let media_url := st_get_media_url st in
  let media_url := subst "$Number$" (Str.of_Z number) media_url in
  media_url <-r match re_number_fmt media_url with
                | Some length =>
                    let old := "$Number%" ++ length ++ "d$" in
                    new <-r Format.format_int number
                              ("0>" ++ Str.of_Z (Str.int_of_digits length)) ;;
                    Ok (Str.replace old new media_url)
                | None => Ok media_url
                end ;;
  Ok (subst "$RepresentationID$" rid media_url).

(** The loop, lines 222 to 232. *)
Fixpoint generate_v1_loop (rid : string) (st : SegmentTemplate) (numbers : list Z)
    (stream : DASHStream) : result DASHStream :=
  match numbers with
  | [] => Ok stream
  | number :: rest =>
      media_url <-r generate_v1_media_url rid st number ;;
      stream <-r set_media_url media_url stream ;;
      generate_v1_loop rid st rest stream
  end.

(** [period.duration / interval]: a [None] duration is a [TypeError]. *)
Definition duration_over (d : option Float.float) (interval : Float.float)
    : result Float.float :=
  match d with
  | Some x => Float.truediv x interval
  | None => Err TypeError
  end.

(** [int(x)] is [x] on the [int] fields of the template. *)
Definition generate_v1 (period : Period) (rid : string) (st : SegmentTemplate)
    (stream : DASHStream) : result DASHStream :=
  (* ['$RepresentationID$' in init_url] raises on [None] *)
  init_url <-r match st_get_url st with
               | Some u => Ok u
               | None => Err TypeError
               end ;;
  let init_url := subst "$RepresentationID$" rid init_url in
  stream <-r set_init_url init_url stream ;;
  interval <-r Float.int_truediv (st_duration st) (st_timescale st) ;;
  q <-r duration_over (period_duration period) interval ;;
  repeat <-r Float.round q ;;
  stream <-r generate_v1_loop rid st
               (range (st_startNumber st) (repeat + st_startNumber st)) stream ;;
  Ok (set_segments_duration interval stream).

(** *** The walk down to the templates *)

Definition walk_segmenttimeline (segmenttemplate : SegmentTemplate)
    (representation : Representation) (stream : DASHStream) : M DASHStream :=
  match st_SegmentTimeline segmenttemplate with
  | [segmenttimeline] =>
      lift (walk_s segmenttimeline segmenttemplate representation stream)
  | _ :: _ :: _ =>
      secho "please report this DASH content." ;;; ret stream
  | [] =>
      secho "stream has no SegmentTimeline between SegmentTemplate tag." ;;;
      ret stream
  end.

Definition walk_segmenttemplate (representation : Representation) (period : Period)
    (stream : DASHStream) : M DASHStream :=
  match rep_SegmentTemplate representation with
  | [segmenttemplate] =>
      match st_SegmentTimeline segmenttemplate with
      | [] => lift (generate_v1 period (rep_id representation) segmenttemplate stream)
      | _ :: _ => walk_segmenttimeline segmenttemplate representation stream
      end
  | _ :: _ :: _ =>
      secho "please report this DASH content." ;;; ret stream
  | [] =>
      secho "stream has no SegmentTemplate between Representation tag." ;;;
      ret stream
  end.

Definition walk_contentprotection (representation : Representation)
    (stream : DASHStream) : DASHStream :=
  fold_left (fun st cp => append_key cp st)
            (rep_ContentProtection representation) stream.

(** [len(Roles) == 1 and Roles[0].value == 'subtitle'] *)
Definition subtitle_role (Roles : list Role) : bool :=
  match Roles with
  | [r] => match role_value r with
           | Some v => String.eqb v "subtitle"
           | None => false
           end
  | _ => false
  end.

(** Lines 127 to 135: the choice among the addressing schemes. *)
Definition walk_templates (segmenttemplates : list SegmentTemplate)
    (representation : Representation) (period : Period) (stream : DASHStream)
    : M DASHStream :=
  match segmenttemplates with
  | [] => walk_segmenttemplate representation period stream
  | st0 :: others =>
      if (List.length segmenttemplates =? 1)%nat
         && (List.length (st_SegmentTimeline st0) =? 1)%nat
      then walk_segmenttimeline st0 representation stream
      else lift (generate_v1 period (rep_id representation) st0 stream)
  end.

(** Lines 94 to 112: the new stream of a Representation, with its keys and
    its attributes. *)
Definition describe_stream (adaptationset : AdaptationSet) (sidx : nat)
    (uris : string * string * string) (representation : Representation)
    : DASHStream :=
  let '(name, home_url, base_url) := uris in
  let stream := new_stream sidx name home_url base_url args_save_dir in
  let stream := walk_contentprotection representation stream in
  let stream := set_skey (as_id adaptationset) (rep_id representation) stream in
  let stream := set_lang (as_lang adaptationset) stream in
  let stream := set_bandwidth (rep_bandwidth representation) stream in
  let stream :=
    match rep_codecs representation with
    | None => set_codecs (as_codecs adaptationset) stream
    | Some c => set_codecs (Some c) stream
    end in
  let stream :=
    match rep_mimeType representation with
    | None => set_stream_type (as_mimeType adaptationset) stream
    | Some m => set_stream_type (Some m) stream
    end in
  match rep_width representation, rep_height representation with
  | Some w, Some h => set_resolution (Some w) (Some h) stream
  | _, _ => set_resolution (as_width adaptationset) (as_height adaptationset) stream
  end.

(** The body of the loop of [walk_representation], lines 94 to 136: the
    stream of one Representation. *)
Definition walk_representation_body (adaptationset : AdaptationSet) (period : Period)
    (sidx : nat) (uris : string * string * string)
    (segmenttemplates : list SegmentTemplate) (representation : Representation)
    : M DASHStream :=
  let stream := describe_stream adaptationset sidx uris representation in
  let Roles := as_Role adaptationset in
  let BaseURLs := rep_BaseURL representation in
  match BaseURLs with
  | [b] =>
      if subtitle_role Roles
      then lift (set_subtitle_url (innertext b) stream)
      else
        let stream := fix_base_url (innertext b) stream in
        if (List.length segmenttemplates =? 0)%nat
           && (List.length (rep_SegmentTimeline representation) =? 0)%nat
        then lift (base2url (period_duration period) stream)
        else walk_templates segmenttemplates representation period stream
  | _ => walk_templates segmenttemplates representation period stream
  end.

Fixpoint walk_representation_loop (adaptationset : AdaptationSet) (period : Period)
    (uris : string * string * string) (segmenttemplates : list SegmentTemplate)
    (representations : list Representation) (sidx : nat)
    (streams : list DASHStream) : M (list DASHStream) :=
  match representations with
  | [] => ret streams
  | representation :: rest =>
      stream <- walk_representation_body adaptationset period sidx uris
                  segmenttemplates representation ;;
      walk_representation_loop adaptationset period uris segmenttemplates rest
        (sidx + 1) (streams ++ [stream])%list
  end.

Definition walk_representation (adaptationset : AdaptationSet) (period : Period)
    (sidx : nat) (uris : string * string * string) : M (list DASHStream) :=
  let representations := as_Representation adaptationset in
  let segmenttemplates := as_SegmentTemplate adaptationset in
  walk_representation_loop adaptationset period uris segmenttemplates
    representations sidx [].

(** [adaptationset.mimeType == 'image/jpeg'] *)
Definition is_jpeg (adaptationset : AdaptationSet) : bool :=
  match as_mimeType adaptationset with
  | Some m => String.eqb m "image/jpeg"
  | None => false
  end.

Fixpoint walk_adaptationset_loop (period : Period) (sidx : nat)
    (uris : string * string * string) (adaptationsets : list AdaptationSet)
    (streams : list DASHStream) : M (list DASHStream) :=
  match adaptationsets with
  | [] => ret streams
  | adaptationset :: rest =>
      if is_jpeg adaptationset
      then walk_adaptationset_loop period sidx uris rest streams
      else
        _streams <- walk_representation adaptationset period
                      (sidx + List.length streams) uris ;;
        walk_adaptationset_loop period sidx uris rest (streams ++ _streams)%list
  end.

Definition walk_adaptationset (period : Period) (sidx : nat)
    (uris : string * string * string) : M (list DASHStream) :=
  walk_adaptationset_loop period sidx uris (period_AdaptationSet period) [].

(** *** [walk_period] *)

(** Lines 47 to 53: when [hasattr] holds the value of the attribute is
    stored as it is, [None] included; [0.0] is stored for an object
    without the attribute. *)
Definition backfill_duration (mpd : MPD) (periods : list Period) : list Period :=
  match periods with
  | [p] =>
      match period_duration p with
      | None =>
          match mpd_mediaPresentationDuration mpd with
          | Some v => [set_period_duration v p]
          | None => [set_period_duration (Some Float.zero) p]
          end
      | Some _ => periods
      end
  | _ => periods
  end.

(** Lines 55 to 58. *)
Fixpoint walk_period_loop (periods : list Period) (uris : string * string * string)
    (streams : list DASHStream) : M (list DASHStream) :=
  match periods with
  | [] => ret streams
  | period :: rest =>
      _streams <- walk_adaptationset period (List.length streams) uris ;;
      walk_period_loop rest uris (streams ++ _streams)%list
  end.

(** Lines 61 and 62, for one stream. *)
Definition trim_stream (stream : DASHStream) : result DASHStream :=
  g <-r last_item (segments stream) ;;
  if String.eqb (url g) ""
  then Ok (with_segments (removelast (segments stream)) stream)
  else Ok stream.

(** Lines 60 to 62. *)
Fixpoint trim_streams (streams : list DASHStream) : result (list DASHStream) :=
  match streams with
  | [] => Ok []
  | stream :: rest =>
      stream' <-r trim_stream stream ;;
      rest' <-r trim_streams rest ;;
      Ok (stream' :: rest')
  end.

(** The dictionary [skey_stream], in insertion order. *)
Definition Dict : Type := list (SKey * DASHStream).

Fixpoint dict_mem (k : SKey) (d : Dict) : bool :=
  match d with
  | [] => false
  | (k', _) :: d' => skey_eqb k' k || dict_mem k d'
  end.

(** [d[k].update(stream)] *)
Fixpoint dict_update (k : SKey) (stream : DASHStream) (d : Dict) : Dict :=
  match d with
  | [] => []
  | (k', v) :: d' =>
      if skey_eqb k' k then (k', update v stream) :: d'
      else (k', v) :: dict_update k stream d'
  end.

(** Lines 67 to 71. *)
Fixpoint merge_streams (streams : list DASHStream) (skey_stream : Dict) : Dict :=
  match streams with
  | [] => skey_stream
  | stream :: rest =>
      if dict_mem (skey stream) skey_stream
      then merge_streams rest (dict_update (skey stream) stream skey_stream)
      else merge_streams rest (skey_stream ++ [(skey stream, stream)])%list
  end.

(** Lines 45 to 62: the streams of all periods, resolved and trimmed. *)
Definition resolve_streams (mpd : MPD) (uris : string * string * string)
    : M (list DASHStream) :=
  let periods := backfill_duration mpd (mpd_Period mpd) in
  streams <- walk_period_loop periods uris [] ;;
  lift (trim_streams streams).

Definition walk_period (mpd : MPD) (uris : string * string * string)
    : M (list DASHStream) :=
  streams <- resolve_streams mpd uris ;;
  if (List.length (mpd_Period mpd) =? 1)%nat || args_split
  then ret streams
  else ret (map snd (merge_streams streams [])).

(** [parse]: [uris] is the result of [parse_uri(uri)] and [mpd] the tree
    built by [xml_handler(content)]. *)
Definition parse (uri : string) (uris : option (string * string * string))
    (mpd : MPD) : M (list DASHStream) :=
  match uris with
  | None => secho ("parse " ++ uri ++ " failed") ;;; ret []
  | Some (name, home_url, base_url) =>
      let base_url :=
        match mpd_BaseURL mpd with
        | b :: _ => innertext b
        | [] => base_url
        end in
      walk_period mpd (name, home_url, base_url)
  end.

End Resolver.

(** * Vocabulary of the properties *)

(** Every character of [s] satisfies [P]. *)
Fixpoint all_chars (P : ascii -> bool) (s : string) : bool :=
  match s with
  | EmptyString => true
  | String c s' => P c && all_chars P s'
  end.

(** The characters of the decimal text of an [int]. *)
Definition digit_or_minus (c : ascii) : bool :=
  Str.is_digit c || Ascii.eqb c "-".

(** [q in s], for a character. *)
Fixpoint mem_char (q : ascii) (s : string) : bool :=
  match s with
  | EmptyString => false
  | String c s' => Ascii.eqb c q || mem_char q s'
  end.

(** [avoids new pat]: no character occurs both in [pat] and in [new]. *)
Definition avoids (new pat : string) : Prop :=
  forall q, mem_char q pat = true -> mem_char q new = true -> False.

(** The segment opened at position [n] of a stream. *)
Definition opened (s : DASHStream) (n : nat) : Segment :=
  Seg.set_folder (save_dir s) (Seg.set_index (Z.of_nat n) Seg.init).

(** The fields that the URL of a segment depends on. *)
Definition same_base (s s' : DASHStream) : Prop :=
  home_url s' = home_url s /\ base_url s' = base_url s /\
  save_dir s' = save_dir s.

(** The resolved mime type, in the words of the specification: the one of
    the Representation when present, else the one of the AdaptationSet. *)
Definition resolved_mimeType (a : AdaptationSet) (r : Representation)
    : option string :=
  match rep_mimeType r with
  | Some m => Some m
  | None => as_mimeType a
  end.

(** [d / timescale] for the run [s], when it is defined. *)
Definition run_interval (st : SegmentTemplate) (s : S) : option Float.float :=
  match Float.int_truediv (s_d s) (st_timescale st) with
  | Ok x => Some x
  | Err _ => None
  end.

(** [o is not None] *)
Definition is_some {A} (o : option A) : bool :=
  match o with
  | Some _ => true
  | None => false
  end.

(** The format specification built by [generate_v1] for a width [w]. *)
Definition spec_0r (w : Z) : Format.spec := {|
  Format.fill := Some "0"%char;
  Format.align := Some ">"%char;
  Format.sign := None;
  Format.zero := false;
  Format.width := Z.to_nat w
|}.

(** The decimal text of [n] preceded by as many zeros as it takes to
    reach [w] characters. *)
Definition zero_padded (w n : Z) : string :=
  Str.repeat_char "0" (Z.to_nat w - String.length (Str.of_Z n)) ++ Str.of_Z n.

(** The widths of the properties: a width written with at most six digits
    is read by [int] and by the formatter, and the padded text stays
    below a million characters. *)
Definition short_width (len : string) : Prop := (String.length len <= 6)%nat.

(** How a media template takes the number of a segment in computed
    numbering, after the table of placeholders of the specification:
    [write n] is the template with the number [n] written in, before the
    id of the Representation is.  Either the template has no
    width-formatted placeholder, and [$Number$] is replaced by the decimal
    text wherever it stands; or the template is [pre $Number%Nd$ post]
    with no other [$Number%] and no [$Number$], and the placeholder is
    replaced by the number zero-padded to [N] characters. *)
Inductive writes_number (template : string) : (Z -> string) -> Prop :=
| decimal_number :
    Str.contains "$Number%" template = false ->
    writes_number template
      (fun n => Str.replace "$Number$" (Str.of_Z n) template)
| padded_number (pre len post : string) :
    template = (pre ++ "$Number%" ++ len ++ "d$" ++ post)%string ->
    Str.contains "$Number$" template = false ->
    Str.contains "$Number%" pre = false ->
    mem_char Str.newline pre = false ->
    Str.contains "$Number%" post = false ->
    len <> EmptyString -> all_chars Str.is_digit len = true ->
    short_width len ->
    writes_number template
      (fun n => pre ++ zero_padded (Str.int_of_digits len) n ++ post)%string.

(** [0], [1], up to [n - 1]. *)
Definition positions (n : nat) : list Z := map Z.of_nat (seq 0 n).

(** The index of every segment is its position in the list. *)
Definition indexed (l : list Segment) : Prop :=
  map index l = positions (List.length l).

(** Indices are positions, and every name is the one of its index. *)
Definition well_numbered (l : list Segment) : Prop :=
  indexed l /\ Forall Seg.name_follows_index l.

(** [f] leaves the index, the name and the suffix of a segment alone. *)
Definition keeps (f : Segment -> Segment) : Prop :=
  forall g, index (f g) = index g /\ name (f g) = name g /\
            suffix (f g) = suffix g.

(** The invariant of the streams that the resolver builds. *)
Definition sound (s : DASHStream) : Prop := well_numbered (segments s).

(** The streams of [streams] whose key is [k], in order. *)
Definition group (k : SKey) (streams : list DASHStream) : list DASHStream :=
  filter (fun s => skey_eqb (skey s) k) streams.

(** The keys of [ks] without repetition, each at its first occurrence. *)
Fixpoint first_keys (ks : list SKey) : list SKey :=
  match ks with
  | [] => []
  | k :: ks' => k :: filter (fun k' => negb (skey_eqb k' k)) (first_keys ks')
  end.

(** What a segment carries besides its index and its name. *)
Definition body (g : Segment) :=
  (suffix g, url g, filesize g, duration g, byterange g, content g, folder g,
   segment_type g).

(** [t] is the merge of the streams of key [k]: their segments one after
    the other, in the order of the streams, indexed from [0] and named
    after their indices. *)
Definition merged_from (streams : list DASHStream) (k : SKey) (t : DASHStream)
    : Prop :=
  skey t = k /\
  map body (segments t)
    = flat_map (fun s => map body (segments s)) (group k streams) /\
  well_numbered (segments t).

(** The dictionary [d] after the streams [pre] have gone through the loop
    of the merge. *)
Definition merge_inv (pre : list DASHStream) (d : Dict) : Prop :=
  map fst d = first_keys (map skey pre) /\
  Forall (fun kv => merged_from pre (fst kv) (snd kv)) d.

(** The media template of [walk_s] after the [$Bandwidth$] substitution. *)
Definition after_bandwidth (st : SegmentTemplate) (representation : Representation)
    : string :=
  subst "$Bandwidth$" (Str.of_Z (rep_bandwidth representation))
    (st_get_media_url st).

(** For a template addressed by time: the URL in which the time is still
    to be written. *)
Definition time_template (st : SegmentTemplate) (representation : Representation)
    : string :=
  subst "$RepresentationID$" (rep_id representation)
    (after_bandwidth st representation).

(** For a template addressed by number: the URL with the number [n]
    written as decimal text, then the id of the Representation. *)
Definition number_template (st : SegmentTemplate) (representation : Representation)
    (n : Z) : string :=
  subst "$RepresentationID$" (rep_id representation)
    (Str.replace "$Number$" (Str.of_Z n) (after_bandwidth st representation)).

(** The start times, in ticks, of the segments of the runs [ss] when the
    first one starts at [t]. *)
Fixpoint segment_times (t : Z) (ss : list S) : list Z :=
  match ss with
  | [] => []
  | s :: ss' =>
      (map (fun k => t + Z.of_nat k * s_d s) (seq 0 (s_r s))
         ++ segment_times (t + Z.of_nat (s_r s) * s_d s) ss')%list
  end.

(** Lines 196 to 211 of [walk_s] without the branch of the width-formatted
    placeholder: the media URL and the counters after it. *)
Definition walk_s_plain (st : SegmentTemplate) (representation : Representation)
    (s : S) (c : Counters) : string * Counters :=
  let m1 := after_bandwidth st representation in
  let '(m2, number) :=
    if Str.contains "$Number$" m1
    then (Str.replace "$Number$" (Str.of_Z (start_number c)) m1,
          start_number c + 1)
    else (m1, start_number c) in
  let m3 := subst "$RepresentationID$" (rep_id representation) m2 in
  if Str.contains "$Time$" m3
  then (Str.replace "$Time$" (Str.of_Z (time_offset c)) m3,
        {| time_offset := time_offset c + s_d s; start_number := number |})
  else (m3, {| time_offset := time_offset c; start_number := number |}).

(** The counters at the start of each of [n] segments of the run [s], and
    the counters after the last one. *)
Fixpoint run_states (st : SegmentTemplate) (representation : Representation)
    (s : S) (n : nat) (c : Counters) : list (S * Counters) * Counters :=
  match n with
  | O => ([], c)
  | Datatypes.S k =>
      let (rest, c') :=
        run_states st representation s k (snd (walk_s_plain st representation s c)) in
      ((s, c) :: rest, c')
  end.

(** The same over all the runs of a timeline. *)
Fixpoint walk_states (st : SegmentTemplate) (representation : Representation)
    (ss : list S) (c : Counters) : list (S * Counters) * Counters :=
  match ss with
  | [] => ([], c)
  | s :: ss' =>
      let (here, c1) := run_states st representation s (s_r s) c in
      let (rest, c2) := walk_states st representation ss' c1 in
      ((here ++ rest)%list, c2)
  end.

(** The resolved URL written for the counters [snd x] in the run
    [fst x]. *)
Definition url_for (fix_url : string -> string -> string -> string)
    (st : SegmentTemplate) (representation : Representation)
    (stream : DASHStream) (x : S * Counters) : string :=
  fix_url (home_url stream) (base_url stream)
    (fst (walk_s_plain st representation (fst x) (snd x))).

(** A Representation from which a stream is made, with its Period and its
    AdaptationSet. *)
Definition Source : Type := (Period * AdaptationSet * Representation)%type.

(** The sources of a Period, in document order: the Representations of the
    AdaptationSets that are not of type [image/jpeg]. *)
Definition period_sources (period : Period) : list Source :=
  flat_map (fun a => if is_jpeg a then []
                     else map (fun r => (period, a, r)) (as_Representation a))
           (period_AdaptationSet period).

Definition sources (periods : list Period) : list Source :=
  flat_map period_sources periods.

(** The stream of the source [snd x] when it is constructed with the index
    [fst x]. *)
Definition stream_of (fix_url : string -> string -> string -> string)
    (args_save_dir : string) (uris : string * string * string)
    (x : nat * Source) : M DASHStream :=
  let '(k, (p, a, r)) := x in
  walk_representation_body fix_url args_save_dir a p k uris
    (as_SegmentTemplate a) r.

(** The sources [srcs] numbered from [k]. *)
Definition numbered_from (k : nat) (srcs : list Source) : list (nat * Source) :=
  combine (seq k (List.length srcs)) srcs.

(** One loop over numbered sources. *)
Fixpoint walk_sources (fix_url : string -> string -> string -> string)
    (args_save_dir : string) (uris : string * string * string)
    (xs : list (nat * Source)) : M (list DASHStream) :=
  match xs with
  | [] => ret []
  | x :: rest =>
      stream <- stream_of fix_url args_save_dir uris x ;;
      streams <- walk_sources fix_url args_save_dir uris rest ;;
      ret (stream :: streams)
  end.

(** The three diagnostics of the resolver. *)
Definition diagnostics : list string :=
  [ "please report this DASH content.";
    "stream has no SegmentTemplate between Representation tag.";
    "stream has no SegmentTimeline between SegmentTemplate tag." ].

(** ** Concrete manifests *)

(** A URL resolver for the runs below: an absolute URL is kept, any other
    one is appended to the base. *)
Definition join_url (home base u : string) : string :=
  if prefix "http" u then u else (base ++ "/" ++ u)%string.

(** The result of [parse_uri] in the runs. *)
Definition uris0 : string * string * string :=
  ("movie"%string, "http://host"%string, "http://host/dash"%string).

(** A template of four ticks per segment at one tick per second, numbered
    from 1. *)
Definition template (init : option string) (media : string)
    (timelines : list SegmentTimeline) : SegmentTemplate := {|
  st_timescale := 1;
  st_duration := 4;
  st_startNumber := 1;
  st_presentationTimeOffset := 0;
  st_get_url := init;
  st_get_media_url := media;
  st_SegmentTimeline := timelines
|}.

(** The Representation [v0]. *)
Definition representation0 (mime : option string) (urls : list BaseURL)
    (templates : list SegmentTemplate) : Representation := {|
  rep_id := "v0";
  rep_bandwidth := 500000;
  rep_codecs := None;
  rep_mimeType := mime;
  rep_width := None;
  rep_height := None;
  rep_BaseURL := urls;
  rep_SegmentTemplate := templates;
  rep_SegmentTimeline := [];
  rep_ContentProtection := []
|}.

(** The AdaptationSet [0], without Role. *)
Definition adaptationset0 (mime : option string) (templates : list SegmentTemplate)
    (representations : list Representation) : AdaptationSet := {|
  as_id := Some "0"%string;
  as_lang := None;
  as_codecs := None;
  as_mimeType := mime;
  as_width := None;
  as_height := None;
  as_Role := [];
  as_SegmentTemplate := templates;
  as_Representation := representations
|}.

(** A Period of twelve seconds. *)
Definition period0 (adaptationsets : list AdaptationSet) : Period := {|
  period_duration := Some (Float.of_Z 12);
  period_AdaptationSet := adaptationsets
|}.

(** A manifest without presentation duration and without [BaseURL]: the
    attribute is [None]. *)
Definition mpd0 (periods : list Period) : MPD := {|
  mpd_mediaPresentationDuration := Some None;
  mpd_BaseURL := [];
  mpd_Period := periods
|}.

(** The mime type of the video tracks. *)
Definition video : option string := Some "video/mp4"%string.

(** The template of the numbering scenario of the specification. *)
Definition numbered : SegmentTemplate :=
  template (Some "init-$RepresentationID$.mp4"%string) "seg-$Number$.m4s" [].

(** The timeline of the timeline scenario of the specification. *)
Definition timeline0 : SegmentTimeline :=
  {| tl_S := [ {| s_d := 2; s_r := 3 |}; {| s_d := 4; s_r := 1 |} ] |}.

(** A template addressed by time, over that timeline. *)
Definition timed : SegmentTemplate :=
  template None "seg-$Time$.m4s" [timeline0].

(** What is read off a stream in the runs: for each segment its type and
    its URL. *)
Definition listing (s : DASHStream) : list (string * string) :=
  map (fun g => (segment_type g, url g)) (segments s).

(** The diagnostics of a run and the listing of each of its streams. *)
Definition listings (m : M (list DASHStream))
    : list string * result (list (list (string * string))) :=
  (printed m,
   match outcome m with
   | Ok l => Ok (map listing l)
   | Err e => Err e
   end).

(** A manifest with one Period, one AdaptationSet and one Representation. *)
Definition single (a : AdaptationSet) : MPD := mpd0 [period0 [a]].

(** [walk_period] without split. *)
Definition run (mpd : MPD) : M (list DASHStream) :=
  walk_period join_url "dl" false mpd uris0.

(** A stream as the resolver opens it. *)
Definition stream0 : DASHStream :=
  new_stream 0 "movie" "http://host" "http://host/dash" "dl".

(** An AdaptationSet of thumbnails. *)
Definition thumbnails : AdaptationSet :=
  adaptationset0 (Some "image/jpeg"%string) []
    [representation0 video [] [numbered]].

(** An AdaptationSet with one video Representation. *)
Definition movie : AdaptationSet :=
  adaptationset0 video [] [representation0 None [] [numbered]].

(** The same movie over two Periods. *)
Definition two_periods : MPD := mpd0 [period0 [movie]; period0 [movie]].

(** A Representation of thumbnails that declares its type itself, under an
    AdaptationSet that declares none. *)
Definition thumbnail : Representation :=
  representation0 (Some "image/jpeg"%string) [] [numbered].

Definition untyped_set : AdaptationSet := adaptationset0 None [] [thumbnail].

(** A Period without duration. *)
Definition undated : Period :=
  {| period_duration := None; period_AdaptationSet := [movie] |}.

(** A manifest with a presentation duration of thirty seconds. *)
Definition dated (periods : list Period) : MPD := {|
  mpd_mediaPresentationDuration := Some (Some (Float.of_Z 30));
  mpd_BaseURL := [];
  mpd_Period := periods
|}.

(** A template with a timescale of zero, over the timeline. *)
Definition stalled : SegmentTemplate := {|
  st_timescale := 0;
  st_duration := 4;
  st_startNumber := 1;
  st_presentationTimeOffset := 0;
  st_get_url := Some "i.mp4"%string;
  st_get_media_url := "seg-$Number$.m4s";
  st_SegmentTimeline := [timeline0]
|}.

(** A template whose segments last no tick. *)
Definition instant : SegmentTemplate := {|
  st_timescale := 1;
  st_duration := 0;
  st_startNumber := 1;
  st_presentationTimeOffset := 0;
  st_get_url := Some "i.mp4"%string;
  st_get_media_url := "seg-$Number$.m4s";
  st_SegmentTimeline := []
|}.

(** A template addressed by number, over the timeline. *)
Definition counted : SegmentTemplate :=
  template None "seg-$Number$.m4s" [timeline0].

(** A template with the id of the Representation and a number on five
    digits. *)
Definition padded : SegmentTemplate :=
  template (Some "i.mp4"%string) "$RepresentationID$/seg-$Number%05d$.m4s" [].

(** Two Periods, the first with thumbnails between two movies. *)
Definition mixed : MPD :=
  mpd0 [period0 [movie; thumbnails; movie]; period0 [movie]].

(** A Representation without template, under an AdaptationSet without
    template. *)
Definition bare : Representation := representation0 None [] [].

(** A stream whose only segment has a URL. *)
Definition filled : DASHStream :=
  with_segments [DSeg.set_url "http://host/dash/a.m4s" Seg.init] stream0.

(** A second track. *)
Definition stream1 : DASHStream := set_skey (Some "1"%string) "a0" stream0.

(** An [MPD] object that does not carry the attribute at all. *)
Definition unset (periods : list Period) : MPD := {|
  mpd_mediaPresentationDuration := None;
  mpd_BaseURL := [];
  mpd_Period := periods
|}.

(** ** Proof automation *)

(** Inversion of an operation on the last segment. *)
Ltac on_last H :=
  match type of H with
  | rbind (modify_last ?f ?l) _ = Ok _ =>
      let l' := fresh "l" in
      let E := fresh "E" in
      destruct (modify_last f l) as [l'|] eqn:E; [|discriminate H];
      cbn [rbind] in H; injection H as <-
  end.

(** * Properties *)

(** ** Decimal text *)

Lemma of_Z_neg (i : Z) : i < 0 -> Str.of_Z i = String "-" (Str.of_Z (- i)).
Proof.
  destruct i as [|p|p]; intros H; try lia.
  reflexivity.
Qed.

Lemma parse_0r4 : Format.parse "0>4" = Ok Seg.spec_0r4.
Proof. reflexivity. Qed.

Lemma render_0r4 (i : Z) : Format.render Seg.spec_0r4 i = Seg.zero_padded4 i.
Proof.
  unfold Format.render, Format.sign_and_digits, Seg.zero_padded4.
  destruct (i <? 0) eqn:Hi; cbn.
  - apply Z.ltb_lt in Hi. rewrite (of_Z_neg i Hi). reflexivity.
  - reflexivity.
Qed.

(** The f-string of [segment.py] computes the zero-padded text. *)
Lemma format_0r4 (i : Z) : Format.format_int i "0>4" = Ok (Seg.zero_padded4 i).
Proof.
  unfold Format.format_int. rewrite parse_0r4. cbn [rbind].
  now rewrite render_0r4.
Qed.

(** ** The segment name *)

(** C10. After [set_index] and after [add_offset_for_name] the name of the
    segment is its (new) index, zero-padded to four characters, followed
    by its suffix; the suffix is untouched. *)
Theorem segment_name_regenerated (g : Segment) (i offset : Z) :
  Seg.name_follows_index (Seg.set_index i g) /\
  index (Seg.set_index i g) = i /\
  suffix (Seg.set_index i g) = suffix g /\
  Seg.name_follows_index (Seg.add_offset_for_name offset g) /\
  index (Seg.add_offset_for_name offset g) = index g + offset /\
  suffix (Seg.add_offset_for_name offset g) = suffix g.
Proof.
  unfold Seg.name_follows_index, Seg.set_index, Seg.add_offset_for_name,
    Seg.make_name; cbn.
  rewrite !render_0r4. repeat split; reflexivity.
Qed.

(** ** Characters of a decimal text and of a substitution *)

Lemma all_chars_weaken (P Q : ascii -> bool) (s : string) :
  (forall c, P c = true -> Q c = true) ->
  all_chars P s = true -> all_chars Q s = true.
Proof.
  intros HPQ. induction s as [|c s IH]; cbn; [reflexivity|].
  rewrite !andb_true_iff. intros [Hc Hs]. auto.
Qed.

Lemma string_of_uint_digits (d : Decimal.uint) :
  all_chars Str.is_digit (NilEmpty.string_of_uint d) = true.
Proof. induction d; cbn; auto. Qed.

Lemma of_Z_digits (n : Z) : 0 <= n -> all_chars Str.is_digit (Str.of_Z n) = true.
Proof.
  destruct n as [|p|p]; intros H; try lia; [reflexivity|].
  unfold Str.of_Z; cbn. unfold NilZero.string_of_uint.
  destruct (Pos.to_uint p); try reflexivity; apply string_of_uint_digits.
Qed.

Lemma of_Z_chars (n : Z) : all_chars digit_or_minus (Str.of_Z n) = true.
Proof.
  destruct (Z.lt_ge_cases n 0) as [Hn|Hn].
  - rewrite (of_Z_neg n Hn). cbn.
    apply all_chars_weaken with (P := Str.is_digit).
    + intros c Hc. unfold digit_or_minus. now rewrite Hc.
    + apply of_Z_digits. lia.
  - apply all_chars_weaken with (P := Str.is_digit).
    + intros c Hc. unfold digit_or_minus. now rewrite Hc.
    + now apply of_Z_digits.
Qed.

Lemma of_Z_nonempty (n : Z) : exists c s, Str.of_Z n = String c s.
Proof.
  destruct n as [|p|p]; unfold Str.of_Z; cbn; eauto.
  unfold NilZero.string_of_uint.
  destruct (Pos.to_uint p); cbn; eauto.
Qed.

(** A text whose characters all differ from those of the pattern cannot
    create an occurrence of the pattern when it is substituted in. *)

Lemma prefix_cons (a b : ascii) (p s : string) :
  prefix (String a p) (String b s) = Ascii.eqb a b && prefix p s.
Proof.
  cbn. destruct (ascii_dec a b) as [->|Hab].
  - now rewrite Ascii.eqb_refl.
  - apply Ascii.eqb_neq in Hab. now rewrite Hab.
Qed.

Lemma prefix_nil (s : string) : prefix "" s = true.
Proof. now destruct s. Qed.

Lemma contains_cons (pat : string) (c : ascii) (s : string) :
  Str.contains pat (String c s) = prefix pat (String c s) || Str.contains pat s.
Proof. reflexivity. Qed.

Lemma avoids_tail (new : string) (q : ascii) (pat : string) :
  avoids new (String q pat) -> avoids new pat.
Proof.
  intros H c Hc. apply (H c). cbn. rewrite Hc. apply orb_true_r.
Qed.

Lemma avoids_head (c : ascii) (new pat rest : string) :
  avoids (String c new) pat -> prefix pat (String c rest) = true ->
  pat = EmptyString.
Proof.
  intros Hav Hp. destruct pat as [|q pat]; [reflexivity|].
  rewrite prefix_cons in Hp. apply andb_true_iff in Hp as [Hq _].
  apply Ascii.eqb_eq in Hq. subst q.
  exfalso. apply (Hav c); cbn; now rewrite Ascii.eqb_refl.
Qed.

Lemma avoids_by_class (P : ascii -> bool) (new pat : string) :
  all_chars P new = true ->
  all_chars (fun c => negb (P c)) pat = true ->
  avoids new pat.
Proof.
  intros Hn Hp q Hq Hq'.
  assert (HP : P q = true).
  { clear Hp Hq. induction new as [|c new IH]; cbn in *; [discriminate|].
    apply andb_true_iff in Hn as [Hc Hn].
    apply orb_true_iff in Hq' as [E|E]; [|now apply IH].
    apply Ascii.eqb_eq in E. now subst. }
  clear Hn Hq'. induction pat as [|c pat IH]; cbn in *; [discriminate|].
  apply andb_true_iff in Hp as [Hc Hp].
  apply orb_true_iff in Hq as [E|E]; [|now apply IH].
  apply Ascii.eqb_eq in E. subst. rewrite HP in Hc. discriminate.
Qed.

Section Replace.

Variables old new : string.

Lemma prefix_replace :
  forall pat s,
    (exists c n', new = String c n') ->
    avoids new pat ->
    prefix pat (Str.replace_from old new s 0) = true -> prefix pat s = true.
Proof.
  induction pat as [|q pat IH]; intros s Hne Hav Hp.
  - apply prefix_nil.
  - destruct s as [|c s]; [exact Hp|].
    cbn [Str.replace_from] in Hp.
    destruct (prefix old (String c s)).
    + destruct Hne as (c0 & n' & E). rewrite E in Hp, Hav.
      change (prefix (String q pat)
                (String c0 (n' ++ Str.replace_from old (String c0 n') s
                                    (String.length old - 1))) = true) in Hp.
      apply (avoids_head _ _ _ _ Hav) in Hp. discriminate.
    + rewrite prefix_cons in Hp |- *.
      apply andb_true_iff in Hp as [Hq Hp]. rewrite Hq. cbn.
      apply IH; eauto using avoids_tail.
Qed.

Lemma contains_app_avoids (pat : string) :
  pat <> EmptyString ->
  forall n rest, avoids n pat ->
    Str.contains pat (n ++ rest) = true -> Str.contains pat rest = true.
Proof.
  intros Hpat. induction n as [|c n IH]; intros rest Hav H; [exact H|].
  change (Str.contains pat (String c (n ++ rest)) = true) in H.
  rewrite contains_cons in H. apply orb_true_iff in H as [H|H].
  - apply (avoids_head _ _ _ _ Hav) in H. contradiction.
  - apply IH; [|exact H].
    intros q Hq Hq'. apply (Hav q Hq). cbn. rewrite Hq'. apply orb_true_r.
Qed.

Lemma contains_replace_from (pat : string) :
  (exists c n', new = String c n') ->
  avoids new pat ->
  forall s k,
    Str.contains pat (Str.replace_from old new s k) = true ->
    Str.contains pat s = true.
Proof.
  intros Hne Hav.
  destruct pat as [|q pat].
  { intros s k _. destruct s; reflexivity. }
  induction s as [|c s IH]; intros k H; [exact H|].
  rewrite contains_cons. apply orb_true_iff.
  destruct k as [|k].
  - cbn [Str.replace_from] in H.
    destruct (prefix old (String c s)) eqn:Hold.
    + right. apply (IH (String.length old - 1)%nat).
      apply contains_app_avoids with (n := new); [discriminate|exact Hav|exact H].
    + rewrite contains_cons in H. apply orb_true_iff in H as [H|H].
      * left. apply prefix_replace; auto.
        cbn [Str.replace_from]. now rewrite Hold.
      * right. now apply (IH 0%nat).
  - right. cbn [Str.replace_from] in H. now apply (IH k).
Qed.

End Replace.

Lemma contains_subst (pat old new s : string) :
  (exists c n', new = String c n') ->
  avoids new pat ->
  Str.contains pat s = false ->
  Str.contains pat (if Str.contains old s then Str.replace old new s else s) = false.
Proof.
  intros Hne Hav Hs. destruct (Str.contains old s); [|exact Hs].
  destruct (Str.contains pat (Str.replace old new s)) eqn:E; [|reflexivity].
  apply contains_replace_from in E; auto. congruence.
Qed.

(** ** Lists that end with the open segment *)

Local Open Scope list_scope.

Lemma modify_last_snoc {A} (f : A -> A) (l : list A) (x : A) :
  modify_last f (l ++ [x]) = Ok (l ++ [f x]).
Proof.
  induction l as [|a l IH]; [reflexivity|].
  cbn [app modify_last]. rewrite IH.
  destruct (l ++ [x]) eqn:E; [now destruct l|reflexivity].
Qed.

Lemma last_item_snoc {A} (l : list A) (x : A) : last_item (l ++ [x]) = Ok x.
Proof. unfold last_item. now rewrite rev_app_distr. Qed.

Lemma nonempty_snoc {A} (l : list A) :
  l <> [] -> exists l' x, l = l' ++ [x].
Proof.
  intros H. destruct (exists_last H) as (l' & x & ->). eauto.
Qed.

Lemma strip_prefix_prefix (p s r : string) :
  Str.strip_prefix p s = Some r -> prefix p s = true.
Proof.
  revert s. induction p as [|a p IH]; intros s H.
  - apply prefix_nil.
  - destruct s as [|b s]; [discriminate|].
    cbn in H. rewrite prefix_cons.
    destruct (Ascii.eqb a b); [cbn; eauto|discriminate].
Qed.

Lemma re_number_fmt_contains (s ds : string) :
  re_number_fmt s = Some ds -> Str.contains "$Number%" s = true.
Proof.
  induction s as [|c s IH]; cbn [re_number_fmt]; intros H.
  - unfold number_fmt_here in H. cbn in H. discriminate.
  - rewrite contains_cons. apply orb_true_iff.
    destruct (number_fmt_here (String c s)) eqn:E.
    + left. unfold number_fmt_here in E.
      destruct (Str.strip_prefix "$Number%" (String c s)) eqn:P; [|discriminate].
      eapply strip_prefix_prefix; eauto.
    + right. destruct (Ascii.eqb c Str.newline); [discriminate|auto].
Qed.

Lemma avoids_of_Z (n : Z) : avoids (Str.of_Z n) "$Number%".
Proof.
  apply avoids_by_class with (P := digit_or_minus);
    [apply of_Z_chars|reflexivity].
Qed.

(** ** Prefixes and occurrences *)

Lemma strip_prefix_eq (p s r : string) :
  Str.strip_prefix p s = Some r -> s = (p ++ r)%string.
Proof.
  revert s. induction p as [|a p IH]; intros s H; cbn in *.
  - now injection H as ->.
  - destruct s as [|b s]; [discriminate|].
    destruct (Ascii.eqb a b) eqn:E; [|discriminate].
    apply Ascii.eqb_eq in E. subst b. f_equal. auto.
Qed.

Lemma strip_prefix_app (p r : string) : Str.strip_prefix p (p ++ r) = Some r.
Proof.
  induction p as [|a p IH]; cbn; [reflexivity|]. now rewrite Ascii.eqb_refl.
Qed.

Lemma span_digits_eq (s : string) :
  s = (fst (Str.span_digits s) ++ snd (Str.span_digits s))%string.
Proof.
  induction s as [|c s IH]; cbn; [reflexivity|].
  destruct (Str.is_digit c); [|reflexivity].
  destruct (Str.span_digits s). cbn in *. now f_equal.
Qed.

Lemma span_digits_app (ds : string) (c : ascii) (rest : string) :
  all_chars Str.is_digit ds = true -> Str.is_digit c = false ->
  Str.span_digits (ds ++ String c rest) = (ds, String c rest).
Proof.
  intros Hd Hc. induction ds as [|d ds IH]; cbn.
  - now rewrite Hc.
  - cbn in Hd. apply andb_true_iff in Hd as [H1 H2]. now rewrite H1, IH.
Qed.

Lemma prefix_app (a p s : string) : prefix (a ++ p) (a ++ s) = prefix p s.
Proof.
  induction a as [|c a IH]; [reflexivity|].
  change (prefix (String c (a ++ p)) (String c (a ++ s)) = prefix p s).
  now rewrite prefix_cons, Ascii.eqb_refl, IH.
Qed.

Lemma prefix_app_self (a s : string) : prefix a (a ++ s) = true.
Proof.
  rewrite <- (prefix_nil s) at 1. rewrite <- (prefix_app a "" s).
  f_equal. induction a; cbn; congruence.
Qed.

Lemma contains_prefix (pat s : string) :
  prefix pat s = true -> Str.contains pat s = true.
Proof. intros H. destruct s; cbn in *; now rewrite H. Qed.

Lemma contains_tail (pat : string) (c : ascii) (s : string) :
  Str.contains pat s = true -> Str.contains pat (String c s) = true.
Proof. intros H. rewrite contains_cons, H. apply orb_true_r. Qed.

(** The text of the placeholder of width digits [ds]. *)
Lemma number_fmt_here_prefix (s ds : string) :
  number_fmt_here s = Some ds ->
  ds <> EmptyString /\
  prefix ("$Number%" ++ ds ++ "d$") s = true.
Proof.
  unfold number_fmt_here.
  destruct (Str.strip_prefix "$Number%" s) as [rest|] eqn:P; [|discriminate].
  apply strip_prefix_eq in P. subst s.
  pose proof (span_digits_eq rest) as E.
  destruct (Str.span_digits rest) as [d r]. cbn [fst snd] in E.
  destruct d as [|c d]; [discriminate|].
  destruct (prefix "d$" r) eqn:Hp; [|discriminate].
  intros [= <-]. split; [discriminate|].
  rewrite E, prefix_app, prefix_app. exact Hp.
Qed.

Lemma mem_char_app (q : ascii) (a b : string) :
  mem_char q (a ++ b)%string = mem_char q a || mem_char q b.
Proof.
  induction a as [|c a IH]; cbn; [reflexivity|]. now rewrite IH, orb_assoc.
Qed.

Lemma replace_from_skip (old new a s : string) :
  Str.replace_from old new (a ++ s) (String.length a)
  = Str.replace_from old new s 0.
Proof. induction a as [|c a IH]; [reflexivity|exact IH]. Qed.

Lemma append_assoc3 (a b c : string) :
  ((a ++ b) ++ c)%string = (a ++ b ++ c)%string.
Proof. induction a as [|x a IH]; cbn; congruence. Qed.


(** ** One placeholder in a template *)

Lemma append_empty_r (s : string) : (s ++ "")%string = s.
Proof. induction s as [|c s IH]; cbn; congruence. Qed.

Lemma replace_absent (old new s : string) :
  Str.contains old s = false -> Str.replace old new s = s.
Proof.
  unfold Str.replace. induction s as [|c s IH]; intros H; [reflexivity|].
  rewrite contains_cons in H. apply orb_false_iff in H as [Hp Hc].
  cbn [Str.replace_from]. rewrite Hp. f_equal. auto.
Qed.

(** [if old in s: s = s.replace(old, new)] is [s.replace(old, new)]. *)
Lemma subst_replace (old new s : string) :
  subst old new s = Str.replace old new s.
Proof.
  unfold subst. destruct (Str.contains old s) eqn:E; [reflexivity|].
  symmetry. now apply replace_absent.
Qed.

Lemma prefix_weaken (a b s : string) :
  prefix (a ++ b) s = true -> prefix a s = true.
Proof.
  revert s. induction a as [|c a IH]; intros s H; [apply prefix_nil|].
  destruct s as [|d s]; [discriminate H|].
  change (prefix (String c (a ++ b)) (String d s) = true) in H.
  rewrite prefix_cons in *. apply andb_true_iff in H as [H1 H2].
  rewrite H1. cbn. eauto.
Qed.

Lemma contains_weaken (a b s : string) :
  Str.contains (a ++ b) s = true -> Str.contains a s = true.
Proof.
  induction s as [|c s IH]; intros H.
  - destruct a; [reflexivity|discriminate H].
  - rewrite contains_cons in *. apply orb_true_iff in H as [H|H];
      apply orb_true_iff; [left; eapply prefix_weaken; eauto|right; auto].
Qed.

(** A pattern found at the head of [s ++ t] lies in [s], or starts with
    [s] and goes on in [t]. *)
Lemma prefix_app_cases (p s t : string) :
  prefix p (s ++ t) = true ->
  prefix p s = true \/ exists p2, p = (s ++ p2)%string /\ prefix p2 t = true.
Proof.
  revert p. induction s as [|c s IH]; intros p H.
  - right. exists p. split; [reflexivity|exact H].
  - destruct p as [|a p]; [left; reflexivity|].
    change (prefix (String a p) (String c (s ++ t)) = true) in H.
    rewrite prefix_cons in H. apply andb_true_iff in H as [Hac H].
    apply Ascii.eqb_eq in Hac. subst a.
    destruct (IH p H) as [Hs|(p2 & -> & Hp2)].
    + left. now rewrite prefix_cons, Ascii.eqb_refl.
    + right. exists p2. split; [reflexivity|exact Hp2].
Qed.

(** [$Number%] does not start inside a text that does not hold it, when
    the text is followed by [$Number%]: the dollar sign is its first
    character only. *)
Lemma number_prefix_before (pre rest : string) :
  pre <> EmptyString -> Str.contains "$Number%" pre = false ->
  prefix "$Number%" (pre ++ "$Number%" ++ rest) = false.
Proof.
  intros Hne Hc. destruct (prefix _ _) eqn:E; [|reflexivity]. exfalso.
  apply prefix_app_cases in E as [E|(p2 & E & Hp2)].
  - apply contains_prefix in E. congruence.
  - destruct p2 as [|a p2].
    + rewrite append_empty_r in E. subst pre. discriminate Hc.
    + change ("$Number%" ++ rest)%string
        with (String "$" ("Number%" ++ rest)) in Hp2.
      rewrite prefix_cons in Hp2. apply andb_true_iff in Hp2 as [Ha _].
      apply Ascii.eqb_eq in Ha. subst a.
      destruct pre as [|c pre]; [contradiction|].
      injection E as _ E.
      apply (f_equal (mem_char "$")) in E.
      rewrite mem_char_app in E. cbn in E.
      rewrite orb_true_r in E. discriminate E.
Qed.

Lemma re_number_fmt_at (pre rest : string) :
  Str.contains "$Number%" pre = false -> mem_char Str.newline pre = false ->
  re_number_fmt (pre ++ "$Number%" ++ rest) = re_number_fmt ("$Number%" ++ rest).
Proof.
  induction pre as [|c pre IH]; intros Hc Hn; [reflexivity|].
  assert (P : prefix "$Number%" (String c pre ++ "$Number%" ++ rest) = false)
    by (apply number_prefix_before; [discriminate|exact Hc]).
  rewrite contains_cons in Hc. apply orb_false_iff in Hc as [_ Hc].
  cbn [mem_char] in Hn. apply orb_false_iff in Hn as [Hc' Hn].
  change (String c pre ++ ?x)%string with (String c (pre ++ x)) in *.
  cbn [re_number_fmt].
  assert (E : number_fmt_here (String c (pre ++ "$Number%" ++ rest)) = None).
  { unfold number_fmt_here.
    destruct (Str.strip_prefix "$Number%" _) eqn:Q; [|reflexivity].
    apply strip_prefix_prefix in Q. congruence. }
  rewrite E, Hc'. now apply IH.
Qed.

(** The placeholder at its place: the only text replaced is the
    placeholder that no [$Number%] precedes or follows. *)
Lemma replace_number_at (tail new pre post : string) :
  Str.contains "$Number%" pre = false ->
  Str.contains "$Number%" post = false ->
  Str.replace ("$Number%" ++ tail) new (pre ++ "$Number%" ++ tail ++ post)
  = (pre ++ new ++ post)%string.
Proof.
  intros Hpre Hpost. unfold Str.replace.
  induction pre as [|c pre IH].
  - change ("" ++ ?x)%string with x.
    replace ("$Number%" ++ tail ++ post)%string
      with (String "$" ("Number%" ++ tail) ++ post)%string
      by exact (append_assoc3 "$Number%" tail post).
    change ("$Number%" ++ tail)%string with (String "$" ("Number%" ++ tail)).
    set (p := ("Number%" ++ tail)%string).
    change (String "$" p ++ post)%string with (String "$" (p ++ post)).
    cbn [Str.replace_from].
    change (String "$" (p ++ post)) with (String "$" p ++ post)%string.
    rewrite prefix_app_self. cbn [String.length].
    rewrite Nat.sub_succ, Nat.sub_0_r, replace_from_skip.
    f_equal. apply (replace_absent (String "$" p) new post).
    destruct (Str.contains (String "$" p) post) eqn:E; [|reflexivity].
    apply (contains_weaken "$Number%" tail) in E. congruence.
  - assert (P : prefix "$Number%"
                  (String c pre ++ "$Number%" ++ tail ++ post) = false)
      by (apply number_prefix_before; [discriminate|exact Hpre]).
    rewrite contains_cons in Hpre. apply orb_false_iff in Hpre as [_ Hpre].
    change (String c pre ++ ?x)%string with (String c (pre ++ x)) in *.
    cbn [Str.replace_from].
    destruct (prefix ("$Number%" ++ tail) _) eqn:E.
    + apply prefix_weaken in E. congruence.
    + f_equal. now apply IH.
Qed.

Section Properties.

Variable fix_url : string -> string -> string -> string.
Variable args_save_dir : string.
Variable args_split : bool.

Lemma same_base_refl (s : DASHStream) : same_base s s.
Proof. now repeat split. Qed.

Lemma same_base_trans (a b c : DASHStream) :
  same_base a b -> same_base b c -> same_base a c.
Proof.
  unfold same_base. intros (H1 & H2 & H3) (H4 & H5 & H6).
  repeat split; congruence.
Qed.

Lemma set_segment_duration_snoc (d : Float.float) (s : DASHStream) l g :
  segments s = l ++ [g] ->
  exists s', set_segment_duration d s = Ok s' /\
    segments s' = l ++ [DSeg.set_duration (Some d) g] /\ same_base s s'.
Proof.
  intros E. unfold set_segment_duration. rewrite E, modify_last_snoc.
  eexists; split; [reflexivity|]. now repeat split.
Qed.

Lemma set_media_url_snoc (u : string) (s : DASHStream) l g :
  segments s = l ++ [g] ->
  exists s', set_media_url fix_url u s = Ok s' /\
    segments s' =
      l ++ [DSeg.set_url (fix_url (home_url s) (base_url s) u) g;
            opened s (Datatypes.S (List.length l))] /\
    same_base s s'.
Proof.
  intros E. unfold set_media_url. rewrite E, modify_last_snoc.
  eexists; split; [reflexivity|]. split; [|now repeat split].
  cbn. rewrite <- app_assoc. cbn. unfold opened.
  rewrite length_app. cbn [List.length].
  now replace (List.length l + 1)%nat with (Datatypes.S (List.length l)) by lia.
Qed.

Lemma set_init_url_snoc (u : string) (s : DASHStream) l g :
  segments s = l ++ [g] ->
  exists s', set_init_url fix_url u s = Ok s' /\
    segments s' =
      l ++ [DSeg.set_type "init"
              (DSeg.set_url (fix_url (home_url s) (base_url s) u) g);
            opened s (Datatypes.S (List.length l))] /\
    same_base s s'.
Proof.
  intros E. unfold set_init_url. rewrite E, modify_last_snoc.
  eexists; split; [reflexivity|]. split; [|now repeat split].
  cbn. rewrite <- app_assoc. cbn. unfold opened.
  rewrite length_app. cbn [List.length].
  now replace (List.length l + 1)%nat with (Datatypes.S (List.length l)) by lia.
Qed.

(** *** The timeline path *)

Lemma walk_s_media_url_ok st representation s c :
  Str.contains "$Number%" (st_get_media_url st) = false ->
  exists u c', walk_s_media_url st representation s c = Ok (u, c').
Proof.
  intros H. unfold walk_s_media_url.
  set (m1 := subst "$Bandwidth$" _ _).
  assert (H1 : Str.contains "$Number%" m1 = false).
  { apply contains_subst; auto using of_Z_nonempty, avoids_of_Z. }
  assert (H2 : Str.contains "$Number%"
                 (if Str.contains "$Number$" m1
                  then Str.replace "$Number$" (Str.of_Z (start_number c)) m1
                  else m1) = false).
  { apply contains_subst; auto using of_Z_nonempty, avoids_of_Z. }
  destruct (Str.contains "$Number$" m1).
  - destruct (re_number_fmt _) eqn:E.
    + apply re_number_fmt_contains in E. congruence.
    + cbn. destruct (Str.contains "$Time$" _); eauto.
  - destruct (re_number_fmt _) eqn:E.
    + apply re_number_fmt_contains in E. congruence.
    + cbn. destruct (Str.contains "$Time$" _); eauto.
Qed.

(** The width-formatted placeholder makes the timeline path raise. *)
Lemma walk_s_media_url_padded st representation s c m length :
  (let m1 := subst "$Bandwidth$" (Str.of_Z (rep_bandwidth representation))
               (st_get_media_url st) in
   m = if Str.contains "$Number$" m1
       then Str.replace "$Number$" (Str.of_Z (start_number c)) m1 else m1) ->
  re_number_fmt m = Some length ->
  walk_s_media_url st representation s c = Err ValueError.
Proof.
  cbn zeta. intros -> E. unfold walk_s_media_url.
  destruct (Str.contains "$Number$" _); rewrite E; reflexivity.
Qed.

Lemma walk_s_segment_spec st representation s interval c stream l g :
  Str.contains "$Number%" (st_get_media_url st) = false ->
  segments stream = l ++ [g] ->
  exists c' stream' m g',
    walk_s_segment fix_url st representation s interval (c, stream)
      = Ok (c', stream') /\
    segments stream' = l ++ [m; g'] /\
    duration m = Some interval /\
    same_base stream stream'.
Proof.
  intros Hm E. unfold walk_s_segment.
  destruct (walk_s_media_url_ok st representation s c Hm) as (u & c' & ->).
  cbn [rbind].
  destruct (set_segment_duration_snoc interval stream l g E)
    as (s1 & -> & E1 & B1).
  cbn [rbind].
  destruct (set_media_url_snoc u s1 l _ E1) as (s2 & -> & E2 & B2).
  cbn [rbind]. exists c', s2. do 2 eexists.
  split; [reflexivity|]. split; [exact E2|]. split; [reflexivity|].
  eapply same_base_trans; eauto.
Qed.

Lemma for_range_walk_s st representation s interval :
  Str.contains "$Number%" (st_get_media_url st) = false ->
  forall n c stream l g,
    segments stream = l ++ [g] ->
    exists c' stream' media g',
      for_range n (walk_s_segment fix_url st representation s interval)
        (c, stream) = Ok (c', stream') /\
      segments stream' = l ++ media ++ [g'] /\
      List.length media = n /\
      map duration media = repeat (Some interval) n /\
      same_base stream stream'.
Proof.
  intros Hm. induction n as [|n IH]; intros c stream l g E.
  - exists c, stream, [], g. cbn. repeat split; auto.
  - cbn [for_range].
    destruct (walk_s_segment_spec st representation s interval c stream l g Hm E)
      as (c1 & s1 & m & g1 & -> & E1 & Hd & B1).
    cbn [rbind].
    destruct (IH c1 s1 (l ++ [m]) g1) as (c2 & s2 & media & g2 & R & E2 & Hl & Hds & B2).
    { rewrite E1, <- app_assoc. reflexivity. }
    exists c2, s2, (m :: media), g2.
    split; [exact R|]. split.
    { rewrite E2, <- app_assoc. reflexivity. }
    split; [cbn; congruence|]. split; [cbn; congruence|].
    eapply same_base_trans; eauto.
Qed.

Lemma walk_s_runs_spec st representation :
  Str.contains "$Number%" (st_get_media_url st) = false ->
  forall ss c stream l g,
    forallb (fun s => is_some (run_interval st s)) ss = true ->
    segments stream = l ++ [g] ->
    exists c' stream' media g',
      walk_s_runs fix_url st representation ss (c, stream) = Ok (c', stream') /\
      segments stream' = l ++ media ++ [g'] /\
      List.length media = list_sum (map s_r ss) /\
      map duration media =
        flat_map (fun s => repeat (run_interval st s) (s_r s)) ss /\
      same_base stream stream'.
Proof.
  intros Hm. induction ss as [|s ss IH]; intros c stream l g Hdef E.
  - exists c, stream, [], g. cbn. repeat split; auto.
  - cbn [forallb] in Hdef. apply andb_true_iff in Hdef as [Hs Hdef].
    cbn [walk_s_runs]. unfold run_interval in Hs.
    destruct (Float.int_truediv (s_d s) (st_timescale st)) as [x|] eqn:Hx;
      [|discriminate].
    cbn [rbind].
    destruct (for_range_walk_s st representation s x Hm (s_r s) c stream l g E)
      as (c1 & s1 & m1 & g1 & -> & E1 & Hl1 & Hd1 & B1).
    cbn [rbind].
    destruct (IH c1 s1 (l ++ m1) g1 Hdef) as (c2 & s2 & m2 & g2 & R & E2 & Hl2 & Hd2 & B2).
    { rewrite E1, app_assoc. reflexivity. }
    exists c2, s2, (m1 ++ m2), g2.
    split; [exact R|]. split.
    { rewrite E2, !app_assoc. reflexivity. }
    split.
    { rewrite length_app, Hl1, Hl2. reflexivity. }
    split.
    { rewrite map_app, Hd1, Hd2. cbn [flat_map]. unfold run_interval at 2.
      rewrite Hx. reflexivity. }
    eapply same_base_trans; eauto.
Qed.

Lemma walk_s_init_open st representation stream l g :
  segments stream = l ++ [g] ->
  exists stream0 l0 g0,
    walk_s_init fix_url st representation stream = Ok stream0 /\
    segments stream0 = l0 ++ [g0].
Proof.
  intros E. unfold walk_s_init.
  destruct (st_get_url st) as [init_url|].
  - match goal with
    | |- context [set_init_url _ ?u ?s] =>
        destruct (set_init_url_snoc u s l g) as (s0 & R & E0 & _)
    end.
    { destruct (re_audio_lang _); exact E. }
    exists s0. do 2 eexists. split; [exact R|].
    rewrite E0. change (l ++ [?a; ?b]) with (l ++ [a] ++ [b]).
    rewrite app_assoc. reflexivity.
  - eauto.
Qed.

(** C6. A timeline walk emits, for the Representation, as many media
    segments as the repeat counts [r] of the [S] runs add up to, in the
    order of the runs, and each segment of a run with tick duration [d]
    has the duration [d / timescale].  The walk starts from a stream with
    its open segment, as the resolver builds them, each [d / timescale] is
    defined, and the media template has no width-formatted number
    placeholder. *)
Theorem walk_s_emits tl st representation stream kept g :
  segments stream = kept ++ [g] ->
  Str.contains "$Number%" (st_get_media_url st) = false ->
  forallb (fun s => is_some (run_interval st s)) (tl_S tl) = true ->
  exists stream0 stream' media g',
    walk_s_init fix_url st representation stream = Ok stream0 /\
    walk_s fix_url tl st representation stream = Ok stream' /\
    segments stream' = removelast (segments stream0) ++ media ++ [g'] /\
    List.length media = list_sum (map s_r (tl_S tl)) /\
    map duration media =
      flat_map (fun s => repeat (run_interval st s) (s_r s)) (tl_S tl).
Proof.
  intros E Hm Hdef. unfold walk_s.
  destruct (walk_s_init_open st representation stream kept g E)
    as (s0 & l0 & g0 & R0 & E0).
  rewrite R0. cbn [rbind].
  match goal with
  | |- context [walk_s_runs _ _ _ _ (?c, _)] =>
      destruct (walk_s_runs_spec st representation Hm (tl_S tl) c s0 l0 g0 Hdef E0)
        as (c' & s' & media & g' & R & E' & Hl & Hd & _)
  end.
  rewrite R. cbn [rbind snd].
  exists s0, s', media, g'.
  rewrite E0, removelast_last. auto.
Qed.

(** *** Reading a decimal text back *)

Lemma int_digits_from_uint (d : Decimal.uint) :
  forall acc : positive,
    Str.int_digits_from (Zpos acc) (NilEmpty.string_of_uint d)
    = Zpos (Pos.of_uint_acc d acc).
Proof.
  induction d; intros acc; cbn [NilEmpty.string_of_uint Str.int_digits_from
                                 Pos.of_uint_acc];
    try reflexivity;
    match goal with
    | |- Str.int_digits_from ?z _ = _ =>
        let p := fresh "p" in
        let E := fresh "E" in
        evar (p : positive);
        assert (E : z = Zpos p) by (unfold Str.digit_val; cbn; subst p; reflexivity);
        rewrite E; subst p; rewrite IHd; f_equal; f_equal; lia
    end.
Qed.

Lemma int_of_digits_uint (d : Decimal.uint) :
  Str.int_of_digits (NilEmpty.string_of_uint d) = Z.of_N (Pos.of_uint d).
Proof.
  unfold Str.int_of_digits.
  induction d; cbn [NilEmpty.string_of_uint Str.int_digits_from Pos.of_uint];
    try reflexivity; try exact IHd;
    match goal with
    | |- Str.int_digits_from ?z _ = _ =>
        let p := fresh "p" in
        let E := fresh "E" in
        evar (p : positive);
        assert (E : z = Zpos p) by (unfold Str.digit_val; cbn; subst p; reflexivity);
        rewrite E; subst p; rewrite int_digits_from_uint; reflexivity
    end.
Qed.

Lemma int_of_digits_of_Z (n : Z) : 0 <= n -> Str.int_of_digits (Str.of_Z n) = n.
Proof.
  destruct n as [|p|p]; intros H; try lia; [reflexivity|].
  unfold Str.of_Z; cbn [Z.to_int NilZero.string_of_int].
  pose proof (DecimalPos.Unsigned.of_to p) as R.
  unfold NilZero.string_of_uint.
  destruct (Pos.to_uint p) eqn:E; [discriminate R|..];
    rewrite int_of_digits_uint, R; reflexivity.
Qed.

Lemma span_digits_all (s : string) :
  all_chars Str.is_digit s = true -> Str.span_digits s = (s, EmptyString).
Proof.
  induction s as [|c s IH]; cbn; [reflexivity|].
  intros H. apply andb_true_iff in H as [Hc Hs].
  now rewrite Hc, IH.
Qed.

Lemma span_digits_digits (s : string) :
  all_chars Str.is_digit (fst (Str.span_digits s)) = true.
Proof.
  induction s as [|c s IH]; cbn; [reflexivity|].
  destruct (Str.is_digit c) eqn:Hc; [|reflexivity].
  destruct (Str.span_digits s). cbn in *. now rewrite Hc.
Qed.

Lemma digit_not_sign (c : ascii) :
  Str.is_digit c = true -> Format.is_sign c = false /\ Format.is_align c = false.
Proof.
  destruct c as [[] [] [] [] [] [] [] []]; cbn; intros H;
    try discriminate H; split; reflexivity.
Qed.

Lemma int_digits_from_nonneg (ds : string) :
  all_chars Str.is_digit ds = true ->
  forall acc, 0 <= acc -> 0 <= Str.int_digits_from acc ds.
Proof.
  induction ds as [|c ds IH]; cbn [all_chars Str.int_digits_from];
    intros H acc Hacc; [exact Hacc|].
  apply andb_true_iff in H as [Hc Hs]. apply IH; [exact Hs|].
  assert (Hv : 0 <= Str.digit_val c).
  { unfold Str.digit_val, Str.is_digit in *.
    apply andb_true_iff in Hc as [Hlo _]. apply Nat.leb_le in Hlo.
    clear - Hlo. lia. }
  clear - Hv Hacc. lia.
Qed.

Lemma all_chars_app (P : ascii -> bool) (a b : string) :
  all_chars P (a ++ b)%string = all_chars P a && all_chars P b.
Proof.
  induction a as [|c a IH]; cbn; [reflexivity|]. now rewrite IH, andb_assoc.
Qed.

Lemma repeat_char_length (c : ascii) (n : nat) :
  String.length (Str.repeat_char c n) = n.
Proof. induction n; cbn; congruence. Qed.

Lemma length_app_string (a b : string) :
  String.length (a ++ b)%string = (String.length a + String.length b)%nat.
Proof. induction a as [|c a IH]; cbn; congruence. Qed.

Lemma int_digits_from_zeros (n : nat) (s : string) :
  Str.int_digits_from 0 (Str.repeat_char "0" n ++ s)%string
  = Str.int_digits_from 0 s.
Proof. induction n as [|n IH]; [reflexivity|exact IH]. Qed.

(** The zero-padded text of an index that is not negative consists of
    digits, has at least four of them, exactly four when the index has at
    most four, and reads back as the index. *)
Lemma zero_padded4_nonneg (i : Z) :
  0 <= i ->
  all_chars Str.is_digit (Seg.zero_padded4 i) = true /\
  Str.int_of_digits (Seg.zero_padded4 i) = i /\
  (4 <= String.length (Seg.zero_padded4 i))%nat /\
  (String.length (Str.of_Z i) <= 4 ->
   String.length (Seg.zero_padded4 i) = 4)%nat.
Proof.
  intros Hi. unfold Seg.zero_padded4.
  rewrite all_chars_app, length_app_string, repeat_char_length, of_Z_digits by exact Hi.
  repeat split.
  - rewrite andb_true_r. clear. induction (4 - _)%nat; cbn; auto.
  - unfold Str.int_of_digits. rewrite int_digits_from_zeros.
    now apply int_of_digits_of_Z.
  - lia.
  - lia.
Qed.

Lemma render_fill_align (sp : Format.spec) (w : Z) (n : Z) :
  Format.fill sp = Some "0"%char -> Format.align sp = Some ">"%char ->
  Format.sign sp = None -> Format.width sp = Z.to_nat w ->
  Format.render sp n = Format.render (spec_0r w) n.
Proof.
  unfold Format.render. intros -> -> -> ->. reflexivity.
Qed.

(** [f'{n:0>{w}}']: the text of [n] right-aligned in [w] columns of
    zeros. *)
Lemma format_0r (n w : Z) :
  0 <= w <= Format.max_width ->
  Format.format_int n ("0>" ++ Str.of_Z w)%string
  = Ok (Format.render (spec_0r w) n).
Proof.
  intros [Hw Hmax]. unfold Format.format_int, Format.parse.
  destruct (of_Z_nonempty w) as (c & rest & E).
  pose proof (of_Z_digits w Hw) as Hd. pose proof (int_of_digits_of_Z w Hw) as Hr.
  rewrite E in *. cbn in Hd. apply andb_true_iff in Hd as [Hc Hrest].
  destruct (digit_not_sign c Hc) as [Hsign Halign].
  cbn [append Format.parse_fill_align]. cbn [Format.is_align Ascii.eqb].
  replace (Format.is_align ">") with true by reflexivity.
  unfold Format.parse_sign. rewrite Hsign.
  unfold Format.parse_zero.
  destruct (Ascii.eqb c "0") eqn:E0.
  - rewrite (span_digits_all rest Hrest).
    apply Ascii.eqb_eq in E0. subst c.
    assert (Hr' : Str.int_of_digits rest = w) by (rewrite <- Hr; reflexivity).
    rewrite Hr'.
    destruct (Format.max_width <? w) eqn:Eb; [apply Z.ltb_lt in Eb; lia|].
    cbn [rbind]. f_equal; apply render_fill_align; reflexivity.
  - rewrite (span_digits_all (String c rest)) by (cbn; now rewrite Hc).
    rewrite Hr.
    destruct (Format.max_width <? w) eqn:Eb; [apply Z.ltb_lt in Eb; lia|].
    cbn [rbind]. f_equal; apply render_fill_align; reflexivity.
Qed.

(** *** The computed-numbering path *)

Lemma number_fmt_here_digits (s ds : string) :
  number_fmt_here s = Some ds -> all_chars Str.is_digit ds = true.
Proof.
  unfold number_fmt_here.
  destruct (Str.strip_prefix "$Number%" s) as [rest|]; [|discriminate].
  pose proof (span_digits_digits rest) as H.
  destruct (Str.span_digits rest) as [d r]. cbn in H.
  destruct d; [discriminate|].
  destruct (prefix "d$" r); [|discriminate]. now intros [= <-].
Qed.

Lemma re_number_fmt_digits (s ds : string) :
  re_number_fmt s = Some ds -> all_chars Str.is_digit ds = true.
Proof.
  induction s as [|c s IH]; cbn [re_number_fmt].
  - destruct (number_fmt_here "") eqn:E; [|discriminate].
    intros [= <-]. eapply number_fmt_here_digits; eauto.
  - destruct (number_fmt_here (String c s)) eqn:E.
    + intros [= <-]. eapply number_fmt_here_digits; eauto.
    + destruct (Ascii.eqb c Str.newline); [discriminate|exact IH].
Qed.

(** The width read from at most six digits is below a million. *)
Lemma int_digits_from_bound (ds : string) :
  all_chars Str.is_digit ds = true ->
  forall acc, 0 <= acc ->
    Str.int_digits_from acc ds < (acc + 1) * 10 ^ Z.of_nat (String.length ds).
Proof.
  induction ds as [|c ds IH]; cbn [all_chars Str.int_digits_from String.length];
    intros H acc Hacc; [cbn; lia|].
  apply andb_true_iff in H as [Hc Hs].
  assert (Hv : 0 <= Str.digit_val c <= 9).
  { unfold Str.digit_val, Str.is_digit in *.
    apply andb_true_iff in Hc as [Hlo Hhi].
    apply Nat.leb_le in Hlo. apply Nat.leb_le in Hhi. clear - Hlo Hhi. lia. }
  specialize (IH Hs (10 * acc + Str.digit_val c) ltac:(lia)).
  rewrite Nat2Z.inj_succ, Z.pow_succ_r by lia.
  assert (Hp : 0 < 10 ^ Z.of_nat (String.length ds)) by (apply Z.pow_pos_nonneg; lia).
  clear - IH Hv Hp Hacc. nia.
Qed.

Lemma short_width_read (len : string) :
  all_chars Str.is_digit len = true -> short_width len ->
  0 <= Str.int_of_digits len <= Format.max_width.
Proof.
  intros Hd Hs. split.
  - apply int_digits_from_nonneg; [exact Hd|lia].
  - pose proof (int_digits_from_bound len Hd 0 ltac:(lia)) as B.
    unfold short_width in Hs.
    assert (Hp : 10 ^ Z.of_nat (String.length len) <= 10 ^ 6)
      by (apply Z.pow_le_mono_r; lia).
    unfold Str.int_of_digits, Format.max_width.
    change (10 ^ 6) with 1000000 in Hp. change (2 ^ 63 - 1) with 9223372036854775807.
    clear - B Hp. lia.
Qed.

(** [f'{n:0>{w}}'] is the zero-padded text, also for a negative [n]: the
    zeros come first. *)
Lemma render_0r (w n : Z) : Format.render (spec_0r w) n = zero_padded w n.
Proof.
  unfold Format.render, Format.sign_and_digits, zero_padded.
  destruct (n <? 0) eqn:Hn; cbn.
  - apply Z.ltb_lt in Hn. rewrite (of_Z_neg n Hn). reflexivity.
  - reflexivity.
Qed.

(** The media URL of [generate_v1] for a template that takes the number
    as [write] says. *)
Lemma generate_v1_media_url_writes rid st write :
  writes_number (st_get_media_url st) write ->
  forall number,
    generate_v1_media_url rid st number
    = Ok (subst "$RepresentationID$" rid (write number)).
Proof.
  intros [Hplain|pre len post Ht Hnum Hpre Hnl Hpost Hne Hd Hs] number;
    unfold generate_v1_media_url.
  - rewrite (subst_replace "$Number$").
    assert (E : re_number_fmt
                  (Str.replace "$Number$" (Str.of_Z number) (st_get_media_url st))
                = None).
    { destruct (re_number_fmt _) eqn:E; [|reflexivity].
      apply re_number_fmt_contains in E.
      rewrite <- (subst_replace "$Number$") in E. unfold subst in E.
      rewrite contains_subst in E;
        auto using of_Z_nonempty, avoids_of_Z. discriminate E. }
    cbv zeta. rewrite E. reflexivity.
  - assert (S1 : subst "$Number$" (Str.of_Z number) (st_get_media_url st)
                 = st_get_media_url st) by (unfold subst; now rewrite Hnum).
    cbv zeta. rewrite S1, Ht.
    rewrite re_number_fmt_at by assumption.
    assert (E : re_number_fmt ("$Number%" ++ len ++ "d$" ++ post) = Some len).
    { change ("$Number%" ++ len ++ "d$" ++ post)%string
        with (String "$" ("Number%" ++ len ++ "d$" ++ post)%string).
      cbn [re_number_fmt].
      change (String "$" ("Number%" ++ len ++ "d$" ++ post)%string)
        with ("$Number%" ++ len ++ "d$" ++ post)%string.
      unfold number_fmt_here. rewrite strip_prefix_app.
      change (len ++ "d$" ++ post)%string
        with (len ++ String "d" (String "$" post))%string.
      rewrite span_digits_app by (auto; reflexivity).
      destruct len; [contradiction|].
      change (String "d" (String "$" post)) with ("d$" ++ post)%string.
      now rewrite prefix_app_self. }
    rewrite E, format_0r by (now apply short_width_read).
    cbn [rbind]. rewrite render_0r.
    replace (pre ++ "$Number%" ++ len ++ "d$" ++ post)%string
      with (pre ++ "$Number%" ++ (len ++ "d$") ++ post)%string
      by (now rewrite (append_assoc3 len)).
    now rewrite replace_number_at.
Qed.

Lemma generate_v1_loop_spec rid st write :
  writes_number (st_get_media_url st) write ->
  forall numbers stream l g,
    segments stream = l ++ [g] ->
    exists stream' media g',
      generate_v1_loop fix_url rid st numbers stream = Ok stream' /\
      segments stream' = l ++ media ++ [g'] /\
      map url media
      = map (fun n => fix_url (home_url stream) (base_url stream)
                        (subst "$RepresentationID$" rid (write n))) numbers /\
      same_base stream stream'.
Proof.
  intros Hw. induction numbers as [|number rest IH]; intros stream l g E.
  - exists stream, [], g. cbn. repeat split; auto.
  - cbn [generate_v1_loop].
    rewrite (generate_v1_media_url_writes rid st write Hw number).
    cbn [rbind].
    destruct (set_media_url_snoc
                (subst "$RepresentationID$" rid (write number)) stream l g E)
      as (s1 & -> & E1 & B1).
    cbn [rbind].
    change (l ++ [?a; ?b]) with (l ++ [a] ++ [b]) in E1.
    rewrite app_assoc in E1.
    destruct (IH s1 _ _ E1) as (s2 & media & g2 & R & E2 & U & B2).
    exists s2. eexists (_ :: media). exists g2.
    split; [exact R|]. split.
    { rewrite E2, <- app_assoc. reflexivity. }
    split.
    { destruct B1 as (Bh & Bb & _). cbn [map]. f_equal.
      now rewrite U, Bh, Bb. }
    eapply same_base_trans; eauto.
Qed.

Lemma range_from (a n : Z) :
  range a (n + a) = map (fun k => a + Z.of_nat k) (seq 0 (Z.to_nat n)).
Proof. unfold range. now replace (n + a - a) with n by lia. Qed.

(** C7. With a Period of duration [D], a template of tick duration [dur],
    timescale [ts] and start number [n0], computed numbering emits
    [round(D / (dur / ts))] media segments; the URL of the [k]-th one,
    for [k] from [0] to [repeat - 1], is the media template with the
    number [n0 + k] written in, as decimal text for [$Number$] and
    zero-padded for [$Number%Nd$], then the id of the Representation, the
    whole resolved against the base of the stream; and every segment has
    the duration [dur / ts].  The walk starts from a stream with its open
    segment, the template has an initialization URL, and the quotients and
    the rounding are defined. *)
Theorem generate_v1_emits period rid st stream kept g init D interval q repeat
    write :
  segments stream = kept ++ [g] ->
  st_get_url st = Some init ->
  period_duration period = Some D ->
  Float.int_truediv (st_duration st) (st_timescale st) = Ok interval ->
  Float.truediv D interval = Ok q ->
  Float.round q = Ok repeat ->
  0 <= repeat ->
  writes_number (st_get_media_url st) write ->
  exists stream' head media g',
    generate_v1 fix_url period rid st stream = Ok stream' /\
    segments stream' = head ++ media ++ [g'] /\
    List.length head = Datatypes.S (List.length kept) /\
    Z.of_nat (List.length media) = repeat /\
    map url media
    = map (fun k =>
             fix_url (home_url stream) (base_url stream)
               (subst "$RepresentationID$" rid
                  (write (st_startNumber st + Z.of_nat k))))
        (seq 0 (Z.to_nat repeat)) /\
    Forall (fun m => duration m = Some interval) (segments stream').
Proof.
  intros E Hinit HD Hi Hq Hr Hpos Hw. unfold generate_v1.
  rewrite Hinit. cbn [rbind].
  destruct (set_init_url_snoc (subst "$RepresentationID$" rid init) stream kept g E)
    as (s1 & -> & E1 & B1).
  cbn [rbind]. rewrite Hi. cbn [rbind].
  unfold duration_over. rewrite HD, Hq. cbn [rbind]. rewrite Hr. cbn [rbind].
  change (kept ++ [?a; ?b]) with (kept ++ [a] ++ [b]) in E1.
  rewrite app_assoc in E1.
  destruct (generate_v1_loop_spec rid st write Hw
              (range (st_startNumber st) (repeat + st_startNumber st)) s1 _ _ E1)
    as (s2 & media & g2 & -> & E2 & U & B2).
  cbn [rbind].
  set (sd := DSeg.set_duration (Some interval)).
  exists (set_segments_duration interval s2).
  exists (map sd (kept ++ [DSeg.set_type "init"
            (DSeg.set_url (fix_url (home_url stream) (base_url stream)
               (subst "$RepresentationID$" rid init)) g)])).
  exists (map sd media), (sd g2).
  split; [reflexivity|]. split.
  { cbn [set_segments_duration with_segments segments]. rewrite E2.
    rewrite !map_app. reflexivity. }
  split.
  { rewrite length_map, length_app. cbn. lia. }
  rewrite range_from in U.
  split.
  { rewrite length_map.
    apply (f_equal (@List.length string)) in U.
    rewrite !length_map, length_seq in U. lia. }
  split.
  { destruct B1 as (Bh & Bb & _).
    rewrite map_map. change (fun x => url (sd x)) with url.
    rewrite U, map_map, Bh, Bb. reflexivity. }
  cbn [set_segments_duration with_segments segments].
  apply Forall_forall. intros m Hm. apply in_map_iff in Hm as (m0 & <- & _).
  reflexivity.
Qed.

(** *** Indices follow positions

    Every stream that the resolver builds has its segments indexed by
    their positions; this is what lets the merge renumber by a shift. *)

Lemma positions_snoc (n : nat) : positions (Datatypes.S n) = positions n ++ [Z.of_nat n].
Proof. unfold positions. now rewrite seq_S, map_app. Qed.

Lemma positions_shift (n a b : nat) :
  map (fun z => z + Z.of_nat a) (map Z.of_nat (seq b n))
  = map Z.of_nat (seq (b + a) n).
Proof.
  revert b. induction n as [|n IH]; intros b; cbn [seq map]; [reflexivity|].
  rewrite (IH (Datatypes.S b)). f_equal. lia.
Qed.

Lemma positions_app (a b : nat) :
  positions (a + b) = positions a ++ map (fun z => z + Z.of_nat a) (positions b).
Proof.
  unfold positions. rewrite seq_app, map_app. f_equal.
  now rewrite positions_shift.
Qed.

Lemma indexed_same (l l' : list Segment) :
  map index l' = map index l -> indexed l -> indexed l'.
Proof.
  unfold indexed. intros E H.
  assert (L : List.length l' = List.length l).
  { rewrite <- (length_map index l'), E. apply length_map. }
  now rewrite E, L.
Qed.

Lemma modify_last_index (f : Segment -> Segment) (l l' : list Segment) :
  (forall g, index (f g) = index g) ->
  modify_last f l = Ok l' -> map index l' = map index l.
Proof.
  intros Hf H. destruct l as [|a l0]; [discriminate|].
  destruct (nonempty_snoc (a :: l0)) as (l1 & x & E); [discriminate|].
  rewrite E, modify_last_snoc in H. injection H as <-.
  rewrite E, !map_app. cbn. now rewrite Hf.
Qed.

Lemma indexed_snoc (l : list Segment) (g : Segment) :
  indexed l -> index g = Z.of_nat (List.length l) -> indexed (l ++ [g]).
Proof.
  unfold indexed. intros H E.
  rewrite map_app, length_app, H. cbn [List.length map].
  replace (List.length l + 1)%nat with (Datatypes.S (List.length l)) by lia.
  now rewrite positions_snoc, E.
Qed.

Lemma indexed_removelast (l : list Segment) : indexed l -> indexed (removelast l).
Proof.
  destruct l as [|a l0]; [auto|].
  destruct (nonempty_snoc (a :: l0)) as (l1 & x & E); [discriminate|].
  rewrite E, removelast_last. unfold indexed.
  rewrite map_app, length_app. cbn [List.length map].
  replace (List.length l1 + 1)%nat with (Datatypes.S (List.length l1)) by lia.
  rewrite positions_snoc. intros H.
  apply app_inj_tail in H. tauto.
Qed.

Lemma set_index_named (i : Z) (g : Segment) :
  Seg.name_follows_index (Seg.set_index i g).
Proof.
  unfold Seg.name_follows_index, Seg.set_index, Seg.make_name; cbn.
  now rewrite render_0r4.
Qed.

Lemma add_offset_named (o : Z) (g : Segment) :
  Seg.name_follows_index (Seg.add_offset_for_name o g).
Proof.
  unfold Seg.name_follows_index, Seg.add_offset_for_name, Seg.make_name; cbn.
  now rewrite render_0r4.
Qed.

Lemma keeps_named (f : Segment -> Segment) (g : Segment) :
  keeps f -> Seg.name_follows_index g -> Seg.name_follows_index (f g).
Proof.
  unfold Seg.name_follows_index. intros Hf H.
  destruct (Hf g) as (-> & -> & ->). exact H.
Qed.

Lemma opened_named (s : DASHStream) (n : nat) :
  Seg.name_follows_index (opened s n).
Proof.
  unfold opened. apply keeps_named; [now intros g|apply set_index_named].
Qed.

Lemma well_numbered_snoc (l : list Segment) (g : Segment) :
  well_numbered l -> index g = Z.of_nat (List.length l) ->
  Seg.name_follows_index g -> well_numbered (l ++ [g]).
Proof.
  intros [Hi Hn] E N. split; [now apply indexed_snoc|].
  apply Forall_app. split; [exact Hn|now constructor].
Qed.

Lemma well_numbered_removelast (l : list Segment) :
  well_numbered l -> well_numbered (removelast l).
Proof.
  intros [Hi Hn]. split; [now apply indexed_removelast|].
  destruct l as [|a l0]; [constructor|].
  destruct (nonempty_snoc (a :: l0)) as (l1 & x & E); [discriminate|].
  rewrite E in *. rewrite removelast_last.
  apply Forall_app in Hn. tauto.
Qed.

Lemma well_numbered_map (f : Segment -> Segment) (l : list Segment) :
  keeps f -> well_numbered l -> well_numbered (map f l).
Proof.
  intros Hf [Hi Hn]. split.
  - eapply indexed_same; [|exact Hi]. rewrite map_map.
    apply map_ext. intros g. apply Hf.
  - apply Forall_map. eapply Forall_impl; [|exact Hn].
    intros g. now apply keeps_named.
Qed.

Lemma modify_last_numbered (f : Segment -> Segment) (l l' : list Segment) :
  keeps f -> well_numbered l -> modify_last f l = Ok l' -> well_numbered l'.
Proof.
  intros Hf [Hi Hn] H. split.
  - eapply indexed_same; [|exact Hi].
    eapply modify_last_index; [|exact H]. intros g. apply Hf.
  - destruct l as [|a l0]; [discriminate|].
    destruct (nonempty_snoc (a :: l0)) as (l1 & x & E); [discriminate|].
    rewrite E in *. rewrite modify_last_snoc in H. injection H as <-.
    apply Forall_app in Hn as [Hn1 Hn2]. apply Forall_app. split; [exact Hn1|].
    inversion Hn2; subst. constructor; [now apply keeps_named|constructor].
Qed.

Lemma append_segment_sound (s : DASHStream) : sound s -> sound (append_segment s).
Proof.
  unfold sound, append_segment. cbn [segments with_segments].
  intros H. apply well_numbered_snoc; [exact H|reflexivity|].
  apply (opened_named s).
Qed.

Lemma new_stream_sound sidx nm home base dir :
  sound (new_stream sidx nm home base dir).
Proof.
  unfold new_stream. apply append_segment_sound.
  split; [reflexivity|constructor].
Qed.

(** An operation on the last segment that keeps its index. *)
Lemma on_last_sound (f : Segment -> Segment) (s : DASHStream) l :
  keeps f ->
  sound s -> modify_last f (segments s) = Ok l -> sound (with_segments l s).
Proof.
  intros Hf H E. unfold sound. cbn [segments with_segments].
  eapply modify_last_numbered; eauto.
Qed.

Lemma set_segment_duration_sound d s s' :
  sound s -> set_segment_duration d s = Ok s' -> sound s'.
Proof.
  unfold set_segment_duration. intros Hs H. on_last H.
  eapply on_last_sound; [|exact Hs|exact E]; now intros g.
Qed.

Lemma set_media_url_sound u s s' :
  sound s -> set_media_url fix_url u s = Ok s' -> sound s'.
Proof.
  unfold set_media_url. intros Hs H. on_last H.
  apply append_segment_sound.
  eapply on_last_sound; [|exact Hs|exact E]; now intros g.
Qed.

Lemma set_init_url_sound u s s' :
  sound s -> set_init_url fix_url u s = Ok s' -> sound s'.
Proof.
  unfold set_init_url. intros Hs H. on_last H.
  apply append_segment_sound.
  eapply on_last_sound; [|exact Hs|exact E]; now intros g.
Qed.

Lemma set_subtitle_url_sound u s s' :
  sound s -> set_subtitle_url u s = Ok s' -> sound s'.
Proof.
  unfold set_subtitle_url. intros Hs H. on_last H.
  eapply on_last_sound; [|exact Hs|exact E]; now intros g.
Qed.

Lemma base2url_sound d s s' :
  sound s -> base2url d s = Ok s' -> sound s'.
Proof.
  unfold base2url. intros Hs H. on_last H.
  eapply on_last_sound; [|exact Hs|exact E]; now intros g.
Qed.

Lemma set_segments_duration_sound d s :
  sound s -> sound (set_segments_duration d s).
Proof.
  unfold sound, set_segments_duration. cbn [segments with_segments].
  apply well_numbered_map. now intros g.
Qed.

Lemma rbind_ok {A B} (r : result A) (f : A -> result B) (b : B) :
  rbind r f = Ok b -> exists a, r = Ok a /\ f a = Ok b.
Proof. destruct r; cbn; [eauto|discriminate]. Qed.

Lemma bind_ok {A B} (m : M A) (f : A -> M B) (b : B) :
  outcome (bind m f) = Ok b ->
  exists a, outcome m = Ok a /\ outcome (f a) = Ok b.
Proof.
  destruct m as [out [a|e]]; cbn; [|discriminate].
  destruct (f a) as [out' r] eqn:E. cbn. intros ->. exists a. now rewrite E.
Qed.

Lemma for_range_sound {St} (P : St -> Prop) (body : St -> result St) :
  (forall x y, P x -> body x = Ok y -> P y) ->
  forall n x y, P x -> for_range n body x = Ok y -> P y.
Proof.
  intros Hb. induction n as [|n IH]; cbn [for_range]; intros x y Hx H.
  - now injection H as <-.
  - apply rbind_ok in H as (x1 & H1 & H2). eauto.
Qed.

Lemma walk_s_sound tl st representation s s' :
  sound s -> walk_s fix_url tl st representation s = Ok s' -> sound s'.
Proof.
  unfold walk_s. intros Hs H.
  apply rbind_ok in H as (s0 & H0 & H).
  apply rbind_ok in H as ([c1 s1] & H1 & H). injection H as <-. cbn [snd].
  assert (Hs0 : sound s0).
  { unfold walk_s_init in H0. destruct (st_get_url st); [|now injection H0 as <-].
    eapply set_init_url_sound; [|exact H0]. now destruct (re_audio_lang _). }
  clear H0 Hs.
  generalize dependent s0.
  generalize ({| time_offset := st_presentationTimeOffset st;
                 start_number := st_startNumber st |}).
  induction (tl_S tl) as [|r rs IH]; cbn [walk_s_runs]; intros c s0 H Hs0.
  - now injection H as <- <-.
  - apply rbind_ok in H as (x & _ & H).
    apply rbind_ok in H as ([c2 s2] & H2 & H).
    eapply IH; [exact H|].
    apply (for_range_sound (fun st => sound (snd st)) _) in H2; auto.
    intros [cx sx] [cy sy] Hx Hy. cbn [snd] in *.
    unfold walk_s_segment in Hy.
    apply rbind_ok in Hy as ([u c'] & _ & Hy).
    apply rbind_ok in Hy as (sa & Ha & Hy).
    apply rbind_ok in Hy as (sb & Hb & Hy). injection Hy as <- <-.
    eauto using set_segment_duration_sound, set_media_url_sound.
Qed.

Lemma generate_v1_sound period rid st s s' :
  sound s -> generate_v1 fix_url period rid st s = Ok s' -> sound s'.
Proof.
  unfold generate_v1. intros Hs H.
  apply rbind_ok in H as (u & _ & H).
  apply rbind_ok in H as (s1 & H1 & H).
  apply rbind_ok in H as (x & _ & H).
  apply rbind_ok in H as (q & _ & H).
  apply rbind_ok in H as (n & _ & H).
  apply rbind_ok in H as (s2 & H2 & H). injection H as <-.
  apply set_segments_duration_sound.
  apply set_init_url_sound in H1; [|exact Hs]. clear Hs.
  revert s1 H1 H2.
  induction (range (st_startNumber st) (n + st_startNumber st)) as [|k ks IH];
    cbn [generate_v1_loop]; intros s1 H1 H2.
  - now injection H2 as <-.
  - apply rbind_ok in H2 as (m & _ & H2).
    apply rbind_ok in H2 as (s3 & H3 & H2).
    eauto using set_media_url_sound.
Qed.

Lemma walk_contentprotection_segments representation s :
  segments (walk_contentprotection representation s) = segments s /\
  same_base s (walk_contentprotection representation s).
Proof.
  unfold walk_contentprotection.
  revert s. induction (rep_ContentProtection representation) as [|k ks IH];
    intros s; cbn [fold_left]; [split; [reflexivity|apply same_base_refl]|].
  destruct (IH (append_key k s)) as [E B]. split; [now rewrite E|].
  eapply same_base_trans; [|exact B]. now repeat split.
Qed.

Lemma walk_segmenttimeline_sound st representation s s' :
  sound s ->
  outcome (walk_segmenttimeline fix_url st representation s) = Ok s' -> sound s'.
Proof.
  unfold walk_segmenttimeline. intros Hs H.
  destruct (st_SegmentTimeline st) as [|tl [|tl2 tls]]; cbn in H.
  - now injection H as <-.
  - eapply walk_s_sound; eauto.
  - now injection H as <-.
Qed.

Lemma walk_segmenttemplate_sound representation period s s' :
  sound s ->
  outcome (walk_segmenttemplate fix_url representation period s) = Ok s' ->
  sound s'.
Proof.
  unfold walk_segmenttemplate. intros Hs H.
  destruct (rep_SegmentTemplate representation) as [|st [|st2 sts]].
  - cbn in H. now injection H as <-.
  - destruct (st_SegmentTimeline st) eqn:E.
    + cbn in H. eapply generate_v1_sound; eauto.
    + eapply walk_segmenttimeline_sound; eauto.
  - cbn in H. now injection H as <-.
Qed.

Lemma walk_templates_sound sts representation period s s' :
  sound s ->
  outcome (walk_templates fix_url sts representation period s) = Ok s' ->
  sound s'.
Proof.
  unfold walk_templates. intros Hs H. destruct sts as [|st0 others].
  - eapply walk_segmenttemplate_sound; eauto.
  - destruct (_ && _).
    + eapply walk_segmenttimeline_sound; eauto.
    + cbn in H. eapply generate_v1_sound; eauto.
Qed.

Lemma describe_stream_segments adaptationset sidx uris representation :
  segments (describe_stream args_save_dir adaptationset sidx uris representation)
  = [opened (describe_stream args_save_dir adaptationset sidx uris representation) 0].
Proof.
  unfold describe_stream. destruct uris as [[nm home] base].
  destruct (rep_codecs representation), (rep_mimeType representation),
    (rep_width representation), (rep_height representation);
    cbn [segments set_resolution set_stream_type set_codecs set_bandwidth
         set_lang set_skey];
    match goal with
    | |- segments (walk_contentprotection ?r ?s) = _ =>
        destruct (walk_contentprotection_segments r s) as [E (_ & _ & D)];
        rewrite E; unfold opened;
        cbn [save_dir set_resolution set_stream_type set_codecs set_bandwidth
             set_lang set_skey];
        rewrite D; reflexivity
    end.
Qed.

Lemma describe_stream_sound adaptationset sidx uris representation :
  sound (describe_stream args_save_dir adaptationset sidx uris representation).
Proof.
  unfold sound. rewrite describe_stream_segments.
  split; [reflexivity|]. constructor; [apply opened_named|constructor].
Qed.

Lemma walk_representation_body_sound adaptationset period sidx uris sts
    representation s' :
  outcome (walk_representation_body fix_url args_save_dir adaptationset period
             sidx uris sts representation) = Ok s' ->
  sound s'.
Proof.
  unfold walk_representation_body.
  pose proof (describe_stream_sound adaptationset sidx uris representation) as Hs.
  set (s := describe_stream _ _ _ _ _) in *. clearbody s.
  intros H. destruct (rep_BaseURL representation) as [|b [|b2 bs]].
  - eapply walk_templates_sound; eauto.
  - destruct (subtitle_role _).
    + cbn in H. eapply set_subtitle_url_sound; eauto.
    + destruct (_ && _).
      * cbn in H. eapply base2url_sound; [|exact H]. exact Hs.
      * eapply walk_templates_sound; [|exact H]. exact Hs.
  - eapply walk_templates_sound; eauto.
Qed.

Lemma walk_representation_loop_sound adaptationset period uris sts :
  forall representations sidx streams streams',
    Forall sound streams ->
    outcome (walk_representation_loop fix_url args_save_dir adaptationset period
               uris sts representations sidx streams) = Ok streams' ->
    Forall sound streams'.
Proof.
  induction representations as [|r rs IH]; cbn [walk_representation_loop];
    intros sidx streams streams' Hs H.
  - cbn in H. now injection H as <-.
  - apply bind_ok in H as (s & H1 & H2).
    eapply IH; [|exact H2].
    apply Forall_app. split; [exact Hs|].
    constructor; [|constructor].
    eapply walk_representation_body_sound; eauto.
Qed.

Lemma walk_adaptationset_loop_sound period uris :
  forall adaptationsets sidx streams streams',
    Forall sound streams ->
    outcome (walk_adaptationset_loop fix_url args_save_dir period sidx uris
               adaptationsets streams) = Ok streams' ->
    Forall sound streams'.
Proof.
  induction adaptationsets as [|a rest IH]; cbn [walk_adaptationset_loop];
    intros sidx streams streams' Hs H.
  - cbn in H. now injection H as <-.
  - destruct (is_jpeg a); [eauto|].
    apply bind_ok in H as (l & H1 & H2).
    eapply IH; [|exact H2].
    apply Forall_app. split; [exact Hs|].
    eapply walk_representation_loop_sound; [|exact H1]. constructor.
Qed.

Lemma walk_period_loop_sound uris :
  forall periods streams streams',
    Forall sound streams ->
    outcome (walk_period_loop fix_url args_save_dir periods uris streams)
      = Ok streams' ->
    Forall sound streams'.
Proof.
  induction periods as [|p rest IH]; cbn [walk_period_loop];
    intros streams streams' Hs H.
  - cbn in H. now injection H as <-.
  - apply bind_ok in H as (l & H1 & H2).
    eapply IH; [|exact H2].
    apply Forall_app. split; [exact Hs|].
    eapply walk_adaptationset_loop_sound; [|exact H1]. constructor.
Qed.

Lemma trim_stream_sound s s' : sound s -> trim_stream s = Ok s' -> sound s'.
Proof.
  unfold trim_stream. intros Hs H.
  apply rbind_ok in H as (g & _ & H).
  destruct (String.eqb (url g) ""); injection H as <-; [|exact Hs].
  apply well_numbered_removelast. exact Hs.
Qed.

Lemma trim_streams_sound :
  forall streams streams',
    Forall sound streams -> trim_streams streams = Ok streams' ->
    Forall sound streams'.
Proof.
  induction streams as [|s rest IH]; cbn [trim_streams]; intros streams' Hs H.
  - now injection H as <-.
  - apply rbind_ok in H as (s1 & H1 & H).
    apply rbind_ok in H as (r1 & H2 & H). injection H as <-.
    inversion Hs; subst. constructor; eauto using trim_stream_sound.
Qed.

Lemma resolve_streams_sound mpd uris streams :
  outcome (resolve_streams fix_url args_save_dir mpd uris) = Ok streams ->
  Forall sound streams.
Proof.
  unfold resolve_streams. intros H.
  apply bind_ok in H as (l & H1 & H2). cbn in H2.
  eapply trim_streams_sound; [|exact H2].
  eapply walk_period_loop_sound; [|exact H1]. constructor.
Qed.

(** *** The merge *)

Lemma skey_eqb_eq (a b : SKey) : skey_eqb a b = true <-> a = b.
Proof.
  destruct a as [[x|] r], b as [[y|] t]; unfold skey_eqb; cbn;
    rewrite ?andb_true_iff, ?String.eqb_eq; split;
    try (intros [? ?]; congruence); try (intros [= -> ->]; auto);
    try (intros [= ->]; auto); try (intros [? ?]; discriminate).
Qed.

Lemma skey_eqb_refl (a : SKey) : skey_eqb a a = true.
Proof. now apply skey_eqb_eq. Qed.

Lemma skey_eqb_neq (a b : SKey) : skey_eqb a b = false <-> a <> b.
Proof.
  rewrite <- skey_eqb_eq. destruct (skey_eqb a b); split; congruence.
Qed.

Lemma first_keys_In (k : SKey) (ks : list SKey) :
  In k (first_keys ks) <-> In k ks.
Proof.
  induction ks as [|a ks IH]; cbn [first_keys]; [tauto|].
  cbn [In]. rewrite filter_In, IH, negb_true_iff, skey_eqb_neq.
  destruct (skey_eqb a k) eqn:E.
  - apply skey_eqb_eq in E. tauto.
  - apply skey_eqb_neq in E. intuition congruence.
Qed.

Lemma first_keys_NoDup (ks : list SKey) : NoDup (first_keys ks).
Proof.
  induction ks as [|a ks IH]; cbn [first_keys]; constructor.
  - rewrite filter_In, negb_true_iff, skey_eqb_neq. tauto.
  - now apply NoDup_filter.
Qed.

Lemma first_keys_snoc (k : SKey) (ks : list SKey) :
  first_keys (ks ++ [k])
  = first_keys ks ++ (if existsb (skey_eqb k) ks then [] else [k]).
Proof.
  induction ks as [|a ks IH]; cbn [first_keys app existsb]; [reflexivity|].
  rewrite IH, filter_app. cbn [app]. do 2 f_equal.
  destruct (existsb (skey_eqb k) ks).
  - now rewrite orb_true_r.
  - rewrite orb_false_r. cbn [filter]. now destruct (skey_eqb k a).
Qed.

Lemma existsb_skey (k : SKey) (ks : list SKey) :
  existsb (skey_eqb k) ks = true <-> In k ks.
Proof.
  rewrite existsb_exists. split.
  - intros (x & Hx & E). apply skey_eqb_eq in E. now subst.
  - intros H. exists k. split; [exact H|apply skey_eqb_refl].
Qed.

Lemma first_keys_snoc_old (k : SKey) (ks : list SKey) :
  In k ks -> first_keys (ks ++ [k]) = first_keys ks.
Proof.
  intros H. apply existsb_skey in H.
  now rewrite first_keys_snoc, H, app_nil_r.
Qed.

Lemma first_keys_snoc_new (k : SKey) (ks : list SKey) :
  ~ In k ks -> first_keys (ks ++ [k]) = first_keys ks ++ [k].
Proof.
  intros H. rewrite first_keys_snoc.
  destruct (existsb (skey_eqb k) ks) eqn:E; [|reflexivity].
  apply existsb_skey in E. contradiction.
Qed.

Lemma dict_mem_In (k : SKey) (d : Dict) :
  dict_mem k d = true <-> In k (map fst d).
Proof.
  induction d as [|[k' v] d IH]; cbn [dict_mem map In fst].
  - split; [discriminate|tauto].
  - rewrite orb_true_iff, IH, skey_eqb_eq. tauto.
Qed.

Lemma dict_update_map (k : SKey) (s : DASHStream) (d : Dict) :
  NoDup (map fst d) ->
  dict_update k s d
  = map (fun kv => if skey_eqb (fst kv) k
                   then (fst kv, update (snd kv) s) else kv) d.
Proof.
  induction d as [|[k' v] d IH]; cbn [dict_update map fst snd]; [reflexivity|].
  intros N. inversion N as [|? ? Hnot N']; subst.
  destruct (skey_eqb k' k) eqn:E.
  - f_equal. apply skey_eqb_eq in E. subst k'.
    clear IH N N'. induction d as [|[k2 v2] d IHd]; cbn [map fst]; [reflexivity|].
    cbn [map fst In] in Hnot.
    assert (E : skey_eqb k2 k = false) by (apply skey_eqb_neq; tauto).
    rewrite E. f_equal. apply IHd. tauto.
  - f_equal. now apply IH.
Qed.

Lemma body_add_offset (o : Z) (l : list Segment) :
  map body (map (Seg.add_offset_for_name o) l) = map body l.
Proof. rewrite map_map. reflexivity. Qed.

Lemma index_add_offset (o : Z) (l : list Segment) :
  map index (map (Seg.add_offset_for_name o) l)
  = map (fun z => z + o) (map index l).
Proof. rewrite !map_map. reflexivity. Qed.

Lemma group_snoc (k : SKey) (pre : list DASHStream) (s : DASHStream) :
  group k (pre ++ [s])
  = group k pre ++ (if skey_eqb (skey s) k then [s] else []).
Proof. unfold group. now rewrite filter_app. Qed.

Lemma update_merged pre k v s :
  merged_from pre k v -> skey s = k -> sound s ->
  merged_from (pre ++ [s]) k (update v s).
Proof.
  intros (Hk & Hb & Hi & Hn) Hs (Hsi & Hsn). unfold merged_from, update.
  cbn [skey segments with_segments]. split; [exact Hk|]. split.
  - rewrite map_app, body_add_offset, Hb, group_snoc.
    rewrite Hs, skey_eqb_refl, flat_map_app. cbn. now rewrite app_nil_r.
  - split.
    + unfold indexed in *.
      rewrite map_app, index_add_offset, Hi, length_app, length_map.
      rewrite Hsi. now rewrite positions_app.
    + apply Forall_app. split; [exact Hn|].
      apply Forall_map, Forall_forall. intros g _. apply add_offset_named.
Qed.

Lemma merged_other pre k v s :
  merged_from pre k v -> skey s <> k -> merged_from (pre ++ [s]) k v.
Proof.
  intros (Hk & Hb & Hi) Hs. split; [exact Hk|]. split; [|exact Hi].
  apply skey_eqb_neq in Hs.
  now rewrite Hb, group_snoc, Hs, app_nil_r.
Qed.

Lemma merge_step pre d s :
  merge_inv pre d -> sound s ->
  merge_inv (pre ++ [s])
    (if dict_mem (skey s) d then dict_update (skey s) s d
     else d ++ [(skey s, s)]).
Proof.
  intros [Hk Hf] Hs. unfold merge_inv. rewrite map_app. cbn [map].
  destruct (dict_mem (skey s) d) eqn:E.
  - apply dict_mem_In in E. rewrite Hk, first_keys_In in E.
    rewrite first_keys_snoc_old by exact E.
    rewrite dict_update_map by (rewrite Hk; apply first_keys_NoDup).
    split.
    + rewrite <- Hk, map_map. apply map_ext. intros [k v]. cbn.
      now destruct (skey_eqb k (skey s)).
    + apply Forall_map. eapply Forall_impl; [|exact Hf].
      intros [k v] H. cbn [fst snd] in *.
      destruct (skey_eqb k (skey s)) eqn:Ek; cbn [fst snd].
      * apply skey_eqb_eq in Ek. now apply update_merged.
      * apply skey_eqb_neq in Ek. apply merged_other; auto.
  - assert (Hn : ~ In (skey s) (map skey pre)).
    { rewrite <- first_keys_In, <- Hk, <- dict_mem_In. congruence. }
    rewrite first_keys_snoc_new by exact Hn. split.
    + rewrite map_app, Hk. reflexivity.
    + apply Forall_app. split.
      * rewrite Forall_forall in Hf |- *. intros [k v] Hin.
        specialize (Hf _ Hin). cbn [fst snd] in *.
        apply merged_other; [exact Hf|].
        intros Ek. apply Hn. apply first_keys_In. rewrite <- Hk, Ek.
        now apply (in_map fst) in Hin.
      * constructor; [|constructor]. cbn [fst snd].
        split; [reflexivity|]. split; [|exact Hs].
        rewrite group_snoc, skey_eqb_refl.
        assert (G : group (skey s) pre = []).
        { unfold group. clear - Hn.
          induction pre as [|p pre IH]; cbn [filter]; [reflexivity|].
          cbn [map In] in Hn.
          assert (E : skey_eqb (skey p) (skey s) = false)
            by (apply skey_eqb_neq; tauto).
          rewrite E. apply IH. tauto. }
        rewrite G. cbn. now rewrite app_nil_r.
Qed.

Lemma merge_streams_inv :
  forall streams pre d,
    merge_inv pre d -> Forall sound streams ->
    merge_inv (pre ++ streams) (merge_streams streams d).
Proof.
  induction streams as [|s rest IH]; intros pre d Hd Hs; cbn [merge_streams].
  - now rewrite app_nil_r.
  - inversion Hs as [|? ? Hs1 Hs2]; subst.
    pose proof (merge_step pre d s Hd Hs1) as Hstep.
    replace (pre ++ s :: rest) with ((pre ++ [s]) ++ rest)
      by (rewrite <- app_assoc; reflexivity).
    destruct (dict_mem (skey s) d); apply IH; auto.
Qed.

Lemma merge_inv_Forall2 (streams : list DASHStream) :
  forall d keys,
    map fst d = keys ->
    Forall (fun kv => merged_from streams (fst kv) (snd kv)) d ->
    Forall2 (merged_from streams) keys (map snd d).
Proof.
  induction d as [|[k v] d IH]; intros keys E H; subst keys; cbn [map fst snd].
  - constructor.
  - inversion H; subst. constructor; auto.
Qed.

(** C8. With exactly one Period, or when the caller asked for a split,
    [walk_period] returns the resolved streams as they are, in their
    order.  Otherwise it returns one stream for each identity key, in the
    order in which the keys first occur; its segments are those of the
    streams of that key, one stream after the other in the order of
    resolution, their indices are [0], [1], [2] and so on, and their names
    are those of their indices. *)
Theorem walk_period_merge mpd uris streams :
  outcome (resolve_streams fix_url args_save_dir mpd uris) = Ok streams ->
  (List.length (mpd_Period mpd) = 1%nat \/ args_split = true ->
   outcome (walk_period fix_url args_save_dir args_split mpd uris) = Ok streams) /\
  (List.length (mpd_Period mpd) <> 1%nat -> args_split = false ->
   exists merged,
     outcome (walk_period fix_url args_save_dir args_split mpd uris) = Ok merged /\
     Forall2 (merged_from streams) (first_keys (map skey streams)) merged).
Proof.
  intros H. pose proof (resolve_streams_sound mpd uris streams H) as Hs.
  unfold walk_period.
  destruct (resolve_streams fix_url args_save_dir mpd uris) as [out [l|e]];
    cbn in H; [|discriminate]. injection H as ->.
  split.
  - intros C.
    assert (E : ((List.length (mpd_Period mpd) =? 1)%nat || args_split) = true).
    { destruct C as [C| ->]; [|apply orb_true_r].
      apply Nat.eqb_eq in C. now rewrite C. }
    cbn [bind]. rewrite E. reflexivity.
  - intros C1 C2.
    assert (E : ((List.length (mpd_Period mpd) =? 1)%nat || args_split) = false).
    { apply Nat.eqb_neq in C1. now rewrite C1, C2. }
    cbn [bind]. rewrite E. cbn.
    eexists. split; [reflexivity|].
    destruct (merge_streams_inv streams [] []) as [Hk Hf]; auto.
    { split; [reflexivity|constructor]. }
    now apply merge_inv_Forall2.
Qed.

(** *** Thumbnail tracks *)

Lemma is_jpeg_iff (a : AdaptationSet) :
  is_jpeg a = true <-> as_mimeType a = Some "image/jpeg"%string.
Proof.
  unfold is_jpeg. destruct (as_mimeType a) as [m|].
  - rewrite String.eqb_eq. split; congruence.
  - split; discriminate.
Qed.

(** C5, as amended. An AdaptationSet whose own [mimeType] is [image/jpeg]
    yields no stream, whatever its Representations declare: the walk over
    the AdaptationSets of a Period is the walk without it. *)
Theorem jpeg_adaptationset_skipped period sidx uris before a after streams :
  as_mimeType a = Some "image/jpeg"%string ->
  walk_adaptationset_loop fix_url args_save_dir period sidx uris
    (before ++ a :: after) streams
  = walk_adaptationset_loop fix_url args_save_dir period sidx uris
      (before ++ after) streams.
Proof.
  intros H. apply is_jpeg_iff in H.
  revert streams. induction before as [|b before IH]; intros streams;
    cbn [app walk_adaptationset_loop].
  - now rewrite H.
  - destruct (is_jpeg b); [apply IH|].
    destruct (walk_representation _ _ _ _ _ _) as [out [l|e]]; cbn [bind];
      [|reflexivity].
    now rewrite IH.
Qed.

(** *** Ambiguous and missing templates *)

(** Under a Representation, more than one [SegmentTemplate] is reported
    and the stream is left as it was. *)
Lemma walk_segmenttemplate_ambiguous representation period stream st1 st2 sts :
  rep_SegmentTemplate representation = st1 :: st2 :: sts ->
  walk_segmenttemplate fix_url representation period stream
  = (["please report this DASH content."%string], Ok stream).
Proof. unfold walk_segmenttemplate. now intros ->. Qed.

(** Under a template, more than one [SegmentTimeline] is reported and the
    stream is left as it was. *)
Lemma walk_segmenttimeline_ambiguous st representation stream tl1 tl2 tls :
  st_SegmentTimeline st = tl1 :: tl2 :: tls ->
  walk_segmenttimeline fix_url st representation stream
  = (["please report this DASH content."%string], Ok stream).
Proof. unfold walk_segmenttimeline. now intros ->. Qed.

(** Under an AdaptationSet, more than one [SegmentTemplate] is not
    reported: the first one is used for computed numbering. *)
Lemma walk_templates_several st0 st1 sts representation period stream :
  walk_templates fix_url (st0 :: st1 :: sts) representation period stream
  = lift (generate_v1 fix_url period (rep_id representation) st0 stream).
Proof. reflexivity. Qed.

(** A stream left with its open segment only ends with no segment. *)
Lemma trim_untouched adaptationset sidx uris representation :
  exists stream',
    trim_stream (describe_stream args_save_dir adaptationset sidx uris representation)
      = Ok stream' /\
    segments stream' = [].
Proof.
  unfold trim_stream. rewrite describe_stream_segments.
  cbn. eexists. split; reflexivity.
Qed.

(** *** Exceptions *)

(** Computed numbering on a template without an initialization URL
    raises. *)
Lemma generate_v1_no_init period rid st stream :
  st_get_url st = None ->
  generate_v1 fix_url period rid st stream = Err TypeError.
Proof. unfold generate_v1. now intros ->. Qed.

(** The trim raises on a stream without segments. *)
Lemma trim_stream_empty stream :
  segments stream = [] -> trim_stream stream = Err IndexError.
Proof. unfold trim_stream. now intros ->. Qed.

(** *** The direct link *)

Lemma describe_stream_base adaptationset sidx nm home base representation :
  home_url (describe_stream args_save_dir adaptationset sidx (nm, home, base)
              representation) = home /\
  base_url (describe_stream args_save_dir adaptationset sidx (nm, home, base)
              representation) = base.
Proof.
  unfold describe_stream.
  destruct (rep_codecs representation), (rep_mimeType representation),
    (rep_width representation), (rep_height representation);
    cbn [home_url base_url set_resolution set_stream_type set_codecs
         set_bandwidth set_lang set_skey];
    match goal with
    | |- home_url (walk_contentprotection ?r ?s) = _ /\ _ =>
        destruct (walk_contentprotection_segments r s) as [_ (H1 & H2 & _)];
        rewrite H1, H2; split; reflexivity
    end.
Qed.

(** The guard of the direct link reads the [SegmentTemplate]s of the
    AdaptationSet and the [SegmentTimeline]s of the Representation: when
    both lists are empty the stream is the single file, whatever
    [SegmentTemplate]s the Representation itself owns. *)
Lemma direct_link adaptationset period sidx nm home base representation b :
  rep_BaseURL representation = [b] ->
  subtitle_role (as_Role adaptationset) = false ->
  as_SegmentTemplate adaptationset = [] ->
  rep_SegmentTimeline representation = [] ->
  exists stream g,
    walk_representation_body fix_url args_save_dir adaptationset period sidx
      (nm, home, base) (as_SegmentTemplate adaptationset) representation
      = ([], Ok stream) /\
    segments stream = [g] /\
    url g = fix_url home base (innertext b) /\
    duration g = period_duration period.
Proof.
  intros Hb Hr Ht Hl. unfold walk_representation_body.
  rewrite Hb, Hr, Ht, Hl. cbn [List.length Nat.eqb andb].
  unfold lift, base2url, fix_base_url.
  cbn [segments with_base_url base_url home_url].
  rewrite describe_stream_segments. cbn [modify_last rbind].
  destruct (describe_stream_base adaptationset sidx nm home base representation)
    as [-> ->].
  do 2 eexists. split; [reflexivity|]. repeat split.
Qed.

End Properties.

(** * Further properties of the code *)

Section Further.

Variable fix_url : string -> string -> string -> string.
Variable args_save_dir : string.
Variable args_split : bool.

(** ** The segment model *)

Lemma append_inj_length (a b s t : string) :
  String.length a = String.length b ->
  (a ++ s)%string = (b ++ t)%string -> a = b /\ s = t.
Proof.
  revert b. induction a as [|c a IH]; intros [|d b] L E; cbn in *;
    try discriminate; [auto|].
  injection E as -> E. destruct (IH b) as [-> ->]; auto.
Qed.

Lemma append_cancel_r (a b s : string) :
  (a ++ s)%string = (b ++ s)%string -> a = b.
Proof.
  intros E. apply (append_inj_length a b s s); [|exact E].
  apply (f_equal String.length) in E. rewrite !length_app_string in E. lia.
Qed.

(** The decimal text of an index below ten thousand has at most four
    characters. *)
Lemma of_Z_short (i : Z) :
  0 <= i < 10000 -> (String.length (Str.of_Z i) <= 4)%nat.
Proof.
  intros H.
  assert (A : forallb (fun n => (String.length (Str.of_Z (Z.of_nat n)) <=? 4)%nat)
                (seq 0 (Z.to_nat 10000)) = true) by (vm_compute; reflexivity).
  rewrite forallb_forall in A.
  specialize (A (Z.to_nat i)). rewrite Z2Nat.id in A by lia.
  apply Nat.leb_le, A, in_seq. lia.
Qed.


(** X2. Two segments with the same suffix whose indices are not negative
    and differ never get the same name. *)
Theorem segment_names_distinct (g g' : Segment) (i j : Z) :
  0 <= i -> 0 <= j -> suffix g = suffix g' ->
  name (Seg.set_index i g) = name (Seg.set_index j g') -> i = j.
Proof.
  intros Hi Hj Hs E. unfold Seg.set_index, Seg.make_name in E. cbn in E.
  rewrite !render_0r4, Hs in E. apply append_cancel_r in E.
  destruct (zero_padded4_nonneg i Hi) as (_ & <- & _).
  destruct (zero_padded4_nonneg j Hj) as (_ & <- & _).
  now rewrite E.
Qed.

(** X3. The name set by [set_index] for an index that is not negative is
    a text of digits followed by the suffix; the digits read back as the
    index, there are at least four of them, and exactly four when the
    index is below ten thousand. *)
Theorem segment_name_reads_back (g : Segment) (i : Z) :
  0 <= i ->
  exists digits,
    name (Seg.set_index i g) = (digits ++ suffix g)%string /\
    all_chars Str.is_digit digits = true /\
    Str.int_of_digits digits = i /\
    (4 <= String.length digits)%nat /\
    (i < 10000 -> String.length digits = 4%nat).
Proof.
  intros Hi. exists (Seg.zero_padded4 i).
  destruct (zero_padded4_nonneg i Hi) as (Hd & Hr & Hl & Hs).
  split.
  { unfold Seg.set_index, Seg.make_name. cbn. now rewrite render_0r4. }
  repeat split; auto.
  intros Hlt. apply Hs, of_Z_short. lia.
Qed.

(** ** The trim and the back-fill *)

(** X4. The trim of [walk_period] on one stream: [IndexError] when the
    stream has no segment; the last segment is dropped, and nothing else,
    when its URL is empty; the stream is returned as it is otherwise. *)
Theorem trim_stream_cases (stream : DASHStream) :
  (segments stream = [] -> trim_stream stream = Err IndexError) /\
  (forall l g,
     segments stream = l ++ [g] -> url g = ""%string ->
     trim_stream stream = Ok (with_segments l stream)) /\
  (forall l g,
     segments stream = l ++ [g] -> url g <> ""%string ->
     trim_stream stream = Ok stream).
Proof.
  unfold trim_stream. repeat split.
  - now intros ->.
  - intros l g -> E. rewrite last_item_snoc. cbn [rbind].
    now rewrite E, removelast_last.
  - intros l g -> E. rewrite last_item_snoc. cbn [rbind].
    apply String.eqb_neq in E. now rewrite E.
Qed.

(** X5. The back-fill settles: applied twice it gives what it gives once,
    and it keeps the number of Periods.  The Period of a single-Period
    manifest is left without duration exactly when it had none and the
    [MPD] carries its presentation duration with the value [None]. *)
Theorem backfill_duration_settles (mpd : MPD) (periods : list Period) :
  backfill_duration mpd (backfill_duration mpd periods)
    = backfill_duration mpd periods /\
  List.length (backfill_duration mpd periods) = List.length periods /\
  (forall p,
     periods = [p] ->
     exists p',
       backfill_duration mpd periods = [p'] /\
       (period_duration p' = None <->
        period_duration p = None /\
        mpd_mediaPresentationDuration mpd = Some None)).
Proof.
  unfold backfill_duration.
  destruct periods as [|p [|q l]].
  - split; [reflexivity|]. split; [reflexivity|]. discriminate.
  - destruct (period_duration p) as [d|] eqn:E.
    + rewrite E. split; [reflexivity|]. split; [reflexivity|].
      intros p0 [= <-]. exists p. split; [reflexivity|].
      rewrite E. split; [discriminate|intros [H _]; discriminate H].
    + destruct (mpd_mediaPresentationDuration mpd) as [[d|]|] eqn:Em.
      * split; [reflexivity|]. split; [reflexivity|].
        intros p0 [= <-]. eexists. split; [reflexivity|]. cbn.
        split; [discriminate|intros [_ H]; discriminate H].
      * split; [reflexivity|]. split; [reflexivity|].
        intros p0 [= <-]. eexists. split; [reflexivity|]. cbn.
        split; auto.
      * split; [reflexivity|]. split; [reflexivity|].
        intros p0 [= <-]. eexists. split; [reflexivity|]. cbn.
        split; [discriminate|intros [_ H]; discriminate H].
  - split; [reflexivity|]. split; [reflexivity|]. discriminate.
Qed.

(** ** Exceptions of the two addressing paths *)

Lemma generate_v1_loop_ok rid st write numbers stream l g :
  writes_number (st_get_media_url st) write ->
  segments stream = l ++ [g] ->
  exists stream', generate_v1_loop fix_url rid st numbers stream = Ok stream'.
Proof.
  intros Hw E.
  destruct (generate_v1_loop_spec fix_url rid st write Hw numbers stream l g E)
    as (s' & _ & _ & R & _). eauto.
Qed.

(** X6. On a stream with its open segment, and for a media template that
    takes the number as [$Number$] or as one [$Number%Nd$] of a short
    width, computed numbering returns a stream exactly when the template
    has an initialization URL, the Period has a duration, and the two
    quotients and the rounding are defined: the substitutions and the
    format of the number do not make it raise. *)
Theorem generate_v1_succeeds_iff period rid st stream kept g write :
  segments stream = kept ++ [g] ->
  writes_number (st_get_media_url st) write ->
  (exists stream', generate_v1 fix_url period rid st stream = Ok stream') <->
  (exists init D interval q repeat,
     st_get_url st = Some init /\
     period_duration period = Some D /\
     Float.int_truediv (st_duration st) (st_timescale st) = Ok interval /\
     Float.truediv D interval = Ok q /\
     Float.round q = Ok repeat).
Proof.
  intros E Hw. unfold generate_v1. split.
  - intros (s' & H).
    apply rbind_ok in H as (init & Hi & H).
    apply rbind_ok in H as (s1 & _ & H).
    apply rbind_ok in H as (interval & Hx & H).
    apply rbind_ok in H as (q & Hq & H).
    apply rbind_ok in H as (repeat & Hr & _).
    destruct (st_get_url st) as [u|]; [|discriminate]. injection Hi as ->.
    unfold duration_over in Hq.
    destruct (period_duration period) as [D|]; [|discriminate].
    exists init, D, interval, q, repeat. auto.
  - intros (init & D & interval & q & repeat & -> & HD & -> & Hq & Hr).
    cbn [rbind].
    destruct (set_init_url_snoc fix_url (subst "$RepresentationID$" rid init)
                stream kept g E) as (s1 & -> & E1 & _).
    cbn [rbind]. unfold duration_over. rewrite HD, Hq. cbn [rbind].
    rewrite Hr. cbn [rbind].
    change (kept ++ [?a; ?b]) with (kept ++ [a] ++ [b]) in E1.
    rewrite app_assoc in E1.
    destruct (generate_v1_loop_ok rid st write
                (range (st_startNumber st) (repeat + st_startNumber st))
                s1 _ _ Hw E1) as (s2 & ->).
    cbn [rbind]. eauto.
Qed.

(** X7. What computed numbering raises, on a stream with its open segment
    and a template with an initialization URL: [ZeroDivisionError] for a
    timescale of zero, and for a tick duration of zero when the Period
    has a duration; [TypeError] for a Period without duration. *)
Theorem generate_v1_raises period rid st stream kept g init :
  segments stream = kept ++ [g] ->
  st_get_url st = Some init ->
  (st_timescale st = 0 ->
   generate_v1 fix_url period rid st stream = Err ZeroDivisionError) /\
  (st_timescale st <> 0 -> st_duration st = 0 ->
   is_some (period_duration period) = true ->
   generate_v1 fix_url period rid st stream = Err ZeroDivisionError) /\
  (forall interval,
     Float.int_truediv (st_duration st) (st_timescale st) = Ok interval ->
     period_duration period = None ->
     generate_v1 fix_url period rid st stream = Err TypeError).
Proof.
  intros E Hi. unfold generate_v1. rewrite Hi. cbn [rbind].
  destruct (set_init_url_snoc fix_url (subst "$RepresentationID$" rid init)
              stream kept g E) as (s1 & -> & _ & _).
  cbn [rbind]. repeat split.
  - intros ->. reflexivity.
  - intros Hts -> HD. unfold Float.int_truediv.
    apply Z.eqb_neq in Hts. rewrite Hts. cbn [Z.eqb rbind].
    destruct (period_duration period); [reflexivity|discriminate].
  - intros interval -> ->. reflexivity.
Qed.

(** X8. A timeline without [S] entry adds no media segment and divides
    nothing: the walk is the handling of the initialization URL alone.
    With an entry and a timescale of zero the walk raises
    [ZeroDivisionError], even when the entry stands for no segment. *)
Theorem walk_s_edges tl st representation stream kept g :
  (tl_S tl = [] ->
   walk_s fix_url tl st representation stream
   = walk_s_init fix_url st representation stream) /\
  (segments stream = kept ++ [g] -> tl_S tl <> [] -> st_timescale st = 0 ->
   walk_s fix_url tl st representation stream = Err ZeroDivisionError).
Proof.
  unfold walk_s. split.
  - intros ->. cbn [walk_s_runs].
    now destruct (walk_s_init fix_url st representation stream).
  - intros E Hne Hts.
    destruct (walk_s_init_open fix_url st representation stream kept g E)
      as (s0 & _ & _ & -> & _).
    cbn [rbind]. destruct (tl_S tl) as [|s ss]; [contradiction|].
    cbn [walk_s_runs]. rewrite Hts. reflexivity.
Qed.

(** ** The two regular expressions *)

(** X9. The recognizer of [$Number%Nd$], on the texts of the model (all
    characters below U+0100, where the decimal digits are [0] to [9]):
    what it returns is a non-empty text of digits whose placeholder does
    occur in the URL; a URL without [$Number%] is not matched; and a
    placeholder that no newline precedes is never missed. *)
Theorem re_number_fmt_spec :
  (forall s ds,
     re_number_fmt s = Some ds ->
     ds <> EmptyString /\ all_chars Str.is_digit ds = true /\
     Str.contains ("$Number%" ++ ds ++ "d$") s = true) /\
  (forall s, Str.contains "$Number%" s = false -> re_number_fmt s = None) /\
  (forall pre ds post,
     mem_char Str.newline pre = false ->
     ds <> EmptyString -> all_chars Str.is_digit ds = true ->
     is_some (re_number_fmt (pre ++ "$Number%" ++ ds ++ "d$" ++ post)) = true).
Proof.
  split; [|split].
  - intros s ds H. split; [|split].
    + revert H. induction s as [|c s IH]; cbn [re_number_fmt].
      * destruct (number_fmt_here "") eqn:E; [|discriminate].
        intros [= <-]. now apply number_fmt_here_prefix in E.
      * destruct (number_fmt_here (String c s)) eqn:E.
        -- intros [= <-]. now apply number_fmt_here_prefix in E.
        -- destruct (Ascii.eqb c Str.newline); [discriminate|exact IH].
    + eapply re_number_fmt_digits; eauto.
    + revert H. induction s as [|c s IH]; cbn [re_number_fmt].
      * destruct (number_fmt_here "") eqn:E; [|discriminate].
        intros [= <-]. apply number_fmt_here_prefix in E.
        now apply contains_prefix.
      * destruct (number_fmt_here (String c s)) eqn:E.
        -- intros [= <-]. apply number_fmt_here_prefix in E.
           now apply contains_prefix.
        -- destruct (Ascii.eqb c Str.newline); [discriminate|].
           intros H. now apply contains_tail, IH.
  - intros s H. destruct (re_number_fmt s) eqn:E; [|reflexivity].
    apply re_number_fmt_contains in E. congruence.
  - intros pre ds post Hn Hne Hd.
    induction pre as [|c pre IH].
    + change ("" ++ ?x)%string with x.
      assert (E : number_fmt_here ("$Number%" ++ ds ++ "d$" ++ post) = Some ds).
      { unfold number_fmt_here. rewrite strip_prefix_app.
        change (ds ++ "d$" ++ post)%string
          with (ds ++ String "d" (String "$" post))%string.
        rewrite span_digits_app by (auto; reflexivity).
        destruct ds; [contradiction|].
        change (String "d" (String "$" post)) with ("d$" ++ post)%string.
        now rewrite prefix_app_self. }
      change ("$Number%" ++ ds ++ "d$" ++ post)%string
        with (String "$" ("Number%" ++ ds ++ "d$" ++ post)%string) in *.
      cbn [re_number_fmt]. rewrite E. reflexivity.
    + cbn [mem_char] in Hn. apply orb_false_iff in Hn as [Hc Hn].
      change ((String c pre) ++ ?x)%string with (String c (pre ++ x)).
      cbn [re_number_fmt].
      destruct (number_fmt_here _); [reflexivity|].
      rewrite Hc. now apply IH.
Qed.

Lemma until_paren_sound (s l : string) :
  until_paren s = Some l ->
  mem_char ")" l = false /\ mem_char Str.newline l = false /\
  prefix (l ++ ")") s = true.
Proof.
  revert l. induction s as [|c s IH]; cbn [until_paren]; intros l H;
    [discriminate|].
  destruct (Ascii.eqb c ")") eqn:Ep.
  - injection H as <-. apply Ascii.eqb_eq in Ep. subst c.
    repeat split. cbn. destruct s; reflexivity.
  - destruct (Ascii.eqb c Str.newline) eqn:En; [discriminate|].
    destruct (until_paren s) as [l'|]; [|discriminate].
    injection H as <-. destruct (IH l' eq_refl) as (H1 & H2 & H3).
    cbn [mem_char]. rewrite Ep, En, H1, H2.
    repeat split.
    change (prefix (String c (l' ++ ")")) (String c s) = true).
    now rewrite prefix_cons, Ascii.eqb_refl.
Qed.

(** X10. The language read from an initialization URL is delimited in it:
    it follows [as=audio_], it is followed by a closing parenthesis, and
    it holds neither a closing parenthesis nor a newline.  A URL without
    [as=audio_] gives no language. *)
Theorem re_audio_lang_sound :
  (forall s l,
     re_audio_lang s = Some l ->
     mem_char ")" l = false /\ mem_char Str.newline l = false /\
     Str.contains ("as=audio_" ++ l ++ ")") s = true) /\
  (forall s, Str.contains "as=audio_" s = false -> re_audio_lang s = None).
Proof.
  assert (Here : forall s l, audio_lang_here s = Some l ->
            mem_char ")" l = false /\ mem_char Str.newline l = false /\
            prefix ("as=audio_" ++ l ++ ")") s = true).
  { intros s l. unfold audio_lang_here.
    destruct (Str.strip_prefix "as=audio_" s) as [rest|] eqn:P; [|discriminate].
    apply strip_prefix_eq in P. subst s. intros H.
    destruct (until_paren_sound rest l H) as (H1 & H2 & H3).
    split; [exact H1|]. split; [exact H2|]. now rewrite prefix_app. }
  split.
  - induction s as [|c s IH]; intros l; cbn [re_audio_lang].
    + destruct (audio_lang_here "") eqn:E; [|discriminate].
      intros [= <-]. destruct (Here _ _ E) as (H1 & H2 & H3).
      split; [exact H1|]. split; [exact H2|]. now apply contains_prefix.
    + destruct (audio_lang_here (String c s)) eqn:E.
      * intros [= <-]. destruct (Here _ _ E) as (H1 & H2 & H3).
        split; [exact H1|]. split; [exact H2|]. now apply contains_prefix.
      * destruct (Ascii.eqb c Str.newline); [discriminate|].
        intros H. destruct (IH l H) as (H1 & H2 & H3).
        split; [exact H1|]. split; [exact H2|]. now apply contains_tail.
  - induction s as [|c s IH]; cbn [re_audio_lang]; intros H.
    + reflexivity.
    + rewrite contains_cons in H. apply orb_false_iff in H as [Hp Hc].
      destruct (audio_lang_here (String c s)) eqn:E.
      * unfold audio_lang_here in E.
        destruct (Str.strip_prefix "as=audio_" (String c s)) eqn:P;
          [|discriminate].
        apply strip_prefix_prefix in P. congruence.
      * destruct (Ascii.eqb c Str.newline); [reflexivity|auto].
Qed.

(** ** The width-formatted number in computed numbering *)

(** X11. Computed numbering on a media template [pre $Number%Nd$ post]
    with no other [$Number%] and no [$Number$], no newline in [pre], and
    a width [N] written with at most six digits: for every number the URL
    is [pre], the decimal text of the number preceded by as many zeros as
    it takes to reach [N] characters, and [post], with the id of the
    Representation written in. *)
Theorem generate_v1_pads_number rid st pre len post number :
  st_get_media_url st = (pre ++ "$Number%" ++ len ++ "d$" ++ post)%string ->
  Str.contains "$Number$" (st_get_media_url st) = false ->
  Str.contains "$Number%" pre = false -> mem_char Str.newline pre = false ->
  Str.contains "$Number%" post = false ->
  len <> EmptyString -> all_chars Str.is_digit len = true ->
  (String.length len <= 6)%nat ->
  generate_v1_media_url rid st number
  = Ok (subst "$RepresentationID$" rid
          (pre
           ++ Str.repeat_char "0"
                (Z.to_nat (Str.int_of_digits len)
                 - String.length (Str.of_Z number))
           ++ Str.of_Z number ++ post))%string.
Proof.
  intros Hm Hnum Hpre Hnl Hpost Hne Hd Hs.
  rewrite (generate_v1_media_url_writes rid st _
             (padded_number _ pre len post Hm Hnum Hpre Hnl Hpost Hne Hd Hs)).
  unfold zero_padded. now rewrite append_assoc3.
Qed.

(** ** The counters of the timeline walk *)

Lemma walk_s_media_url_plain st representation s c :
  Str.contains "$Number%" (st_get_media_url st) = false ->
  walk_s_media_url st representation s c
  = Ok (walk_s_plain st representation s c).
Proof.
  intros H. unfold walk_s_media_url, walk_s_plain, after_bandwidth.
  set (m1 := subst "$Bandwidth$" _ _).
  assert (H1 : Str.contains "$Number%" m1 = false).
  { apply contains_subst; auto using of_Z_nonempty, avoids_of_Z. }
  assert (H2 : Str.contains "$Number%"
                 (if Str.contains "$Number$" m1
                  then Str.replace "$Number$" (Str.of_Z (start_number c)) m1
                  else m1) = false).
  { apply contains_subst; auto using of_Z_nonempty, avoids_of_Z. }
  destruct (Str.contains "$Number$" m1).
  - destruct (re_number_fmt _) eqn:E.
    + apply re_number_fmt_contains in E. congruence.
    + cbn. now destruct (Str.contains "$Time$" _).
  - destruct (re_number_fmt _) eqn:E.
    + apply re_number_fmt_contains in E. congruence.
    + cbn. now destruct (Str.contains "$Time$" _).
Qed.

Lemma for_range_states st representation s interval :
  Str.contains "$Number%" (st_get_media_url st) = false ->
  forall n c stream l g,
    segments stream = l ++ [g] ->
    exists stream' media g',
      for_range n (walk_s_segment fix_url st representation s interval)
        (c, stream)
      = Ok (snd (run_states st representation s n c), stream') /\
      segments stream' = l ++ media ++ [g'] /\
      map url media
      = map (url_for fix_url st representation stream)
          (fst (run_states st representation s n c)) /\
      same_base stream stream'.
Proof.
  intros Hm. induction n as [|n IH]; intros c stream l g E.
  - exists stream, [], g. cbn. repeat split; auto.
  - cbn [for_range run_states]. unfold walk_s_segment at 1.
    rewrite (walk_s_media_url_plain st representation s c Hm).
    cbn [rbind].
    destruct (walk_s_plain st representation s c) as [u c1] eqn:P.
    destruct (set_segment_duration_snoc interval stream l g E)
      as (s1 & -> & E1 & B1).
    cbn [rbind].
    destruct (set_media_url_snoc fix_url u s1 l _ E1) as (s2 & -> & E2 & B2).
    cbn [rbind snd].
    change (l ++ [?a; ?b]) with (l ++ [a] ++ [b]) in E2.
    rewrite app_assoc in E2.
    destruct (IH c1 s2 _ _ E2) as (s3 & media & g3 & R & E3 & U & B3).
    destruct (run_states st representation s n c1) as [rest c'] eqn:RS.
    cbn [fst snd] in *.
    exists s3. eexists (_ :: media). exists g3.
    split; [exact R|]. split.
    { rewrite E3, <- app_assoc. reflexivity. }
    split.
    { cbn [map]. f_equal.
      - unfold url_for. cbn [fst snd]. rewrite P. cbn [fst].
        destruct B1 as (-> & -> & _). reflexivity.
      - rewrite U. apply map_ext. intros x. unfold url_for.
        destruct B1 as (H1 & H2 & _). destruct B2 as (H3 & H4 & _).
        now rewrite H3, H4, H1, H2. }
    eapply same_base_trans; [|exact B3]. eapply same_base_trans; eauto.
Qed.

Lemma walk_s_runs_states st representation :
  Str.contains "$Number%" (st_get_media_url st) = false ->
  forall ss c stream l g,
    forallb (fun s => is_some (run_interval st s)) ss = true ->
    segments stream = l ++ [g] ->
    exists stream' media g',
      walk_s_runs fix_url st representation ss (c, stream)
      = Ok (snd (walk_states st representation ss c), stream') /\
      segments stream' = l ++ media ++ [g'] /\
      map url media
      = map (url_for fix_url st representation stream)
          (fst (walk_states st representation ss c)) /\
      same_base stream stream'.
Proof.
  intros Hm. induction ss as [|s ss IH]; intros c stream l g Hdef E.
  - exists stream, [], g. cbn. repeat split; auto.
  - cbn [forallb] in Hdef. apply andb_true_iff in Hdef as [Hs Hdef].
    cbn [walk_s_runs walk_states]. unfold run_interval in Hs.
    destruct (Float.int_truediv (s_d s) (st_timescale st)) as [x|];
      [|discriminate].
    cbn [rbind].
    destruct (for_range_states st representation s x Hm (s_r s) c stream l g E)
      as (s1 & m1 & g1 & -> & E1 & U1 & B1).
    cbn [rbind].
    destruct (run_states st representation s (s_r s) c) as [here c1].
    cbn [fst snd] in *.
    rewrite app_assoc in E1.
    destruct (IH c1 s1 _ _ Hdef E1) as (s2 & m2 & g2 & -> & E2 & U2 & B2).
    destruct (walk_states st representation ss c1) as [rest c2].
    cbn [fst snd] in *.
    exists s2, (m1 ++ m2), g2.
    split; [reflexivity|]. split.
    { rewrite E2, !app_assoc. reflexivity. }
    split.
    { rewrite !map_app, U1, U2. f_equal. apply map_ext. intros y.
      unfold url_for. destruct B1 as (-> & -> & _). reflexivity. }
    eapply same_base_trans; eauto.
Qed.

Lemma walk_s_init_base st representation stream l g :
  segments stream = l ++ [g] ->
  exists stream0 l0 g0,
    walk_s_init fix_url st representation stream = Ok stream0 /\
    segments stream0 = l0 ++ [g0] /\ same_base stream stream0.
Proof.
  intros E. unfold walk_s_init.
  destruct (st_get_url st) as [init_url|].
  - match goal with
    | |- context [set_init_url _ ?u ?s] =>
        destruct (set_init_url_snoc fix_url u s l g) as (s0 & R & E0 & B)
    end.
    { destruct (re_audio_lang _); exact E. }
    exists s0. do 2 eexists. split; [exact R|]. split.
    + rewrite E0. change (l ++ [?a; ?b]) with (l ++ [a] ++ [b]).
      rewrite app_assoc. reflexivity.
    + destruct (re_audio_lang _); exact B.
  - exists stream, l, g. repeat split; auto.
Qed.

(** The whole walk, in terms of the counters at each segment. *)
Lemma walk_s_states tl st representation stream kept g :
  segments stream = kept ++ [g] ->
  Str.contains "$Number%" (st_get_media_url st) = false ->
  forallb (fun s => is_some (run_interval st s)) (tl_S tl) = true ->
  exists stream0 stream' media g',
    walk_s_init fix_url st representation stream = Ok stream0 /\
    walk_s fix_url tl st representation stream = Ok stream' /\
    segments stream' = removelast (segments stream0) ++ media ++ [g'] /\
    map url media
    = map (url_for fix_url st representation stream)
        (fst (walk_states st representation (tl_S tl)
                {| time_offset := st_presentationTimeOffset st;
                   start_number := st_startNumber st |})).
Proof.
  intros E Hm Hdef. unfold walk_s.
  destruct (walk_s_init_base st representation stream kept g E)
    as (s0 & l0 & g0 & R0 & E0 & B0).
  rewrite R0. cbn [rbind].
  match goal with
  | |- context [walk_s_runs _ _ _ _ (?c, _)] =>
      destruct (walk_s_runs_states st representation Hm (tl_S tl) c s0 l0 g0
                  Hdef E0) as (s' & media & g' & R & E' & U & _)
  end.
  rewrite R. cbn [rbind snd].
  exists s0, s', media, g'.
  rewrite E0, removelast_last. repeat split; auto.
  rewrite U. apply map_ext. intros x. unfold url_for.
  destruct B0 as (-> & -> & _). reflexivity.
Qed.

Lemma map_seq_succ {A} (f : nat -> A) (n : nat) :
  map f (seq 0 (Datatypes.S n)) = f 0%nat :: map (fun k => f (Datatypes.S k)) (seq 0 n).
Proof. cbn [seq map]. now rewrite <- seq_shift, map_map. Qed.

Lemma map_seq_add {A} (f : nat -> A) (a b : nat) :
  map f (seq 0 (a + b)) = map f (seq 0 a) ++ map (fun k => f (a + k)%nat) (seq 0 b).
Proof.
  rewrite seq_app, map_app. f_equal. cbn [Nat.add].
  revert a. induction b as [|b IH]; intros a; [reflexivity|].
  rewrite map_seq_succ. cbn [seq map]. rewrite Nat.add_0_r. f_equal.
  rewrite (IH (Datatypes.S a)). apply map_ext. intros k. f_equal. lia.
Qed.

Lemma walk_s_plain_time st representation s c :
  Str.contains "$Number$" (after_bandwidth st representation) = false ->
  Str.contains "$Time$" (time_template st representation) = true ->
  walk_s_plain st representation s c
  = (Str.replace "$Time$" (Str.of_Z (time_offset c)) (time_template st representation),
     {| time_offset := time_offset c + s_d s; start_number := start_number c |}).
Proof.
  intros Hn Ht. unfold walk_s_plain, time_template in *. now rewrite Hn, Ht.
Qed.

Lemma run_states_time st representation s :
  Str.contains "$Number$" (after_bandwidth st representation) = false ->
  Str.contains "$Time$" (time_template st representation) = true ->
  forall n c,
    map (fun x => time_offset (snd x)) (fst (run_states st representation s n c))
    = map (fun k => time_offset c + Z.of_nat k * s_d s) (seq 0 n) /\
    snd (run_states st representation s n c)
    = {| time_offset := time_offset c + Z.of_nat n * s_d s;
         start_number := start_number c |}.
Proof.
  intros Hn Ht. induction n as [|n IH]; intros c.
  - cbn. split; [reflexivity|]. destruct c. cbn. f_equal. lia.
  - cbn [run_states]. rewrite (walk_s_plain_time st representation s c Hn Ht).
    cbn [snd]. specialize (IH {| time_offset := time_offset c + s_d s;
                                 start_number := start_number c |}).
    destruct (run_states _ _ _ _ _) as [rest c']. cbn [fst snd] in *.
    destruct IH as [IH1 IH2]. split.
    + rewrite map_seq_succ. cbn [map snd]. f_equal; [lia|].
      rewrite IH1. apply map_ext. intros k. cbn [time_offset]. lia.
    + rewrite IH2. cbn [time_offset start_number]. f_equal. lia.
Qed.

Lemma walk_states_time st representation :
  Str.contains "$Number$" (after_bandwidth st representation) = false ->
  Str.contains "$Time$" (time_template st representation) = true ->
  forall ss c,
    map (fun x => time_offset (snd x)) (fst (walk_states st representation ss c))
    = segment_times (time_offset c) ss.
Proof.
  intros Hn Ht. induction ss as [|s ss IH]; intros c; [reflexivity|].
  cbn [walk_states segment_times].
  destruct (run_states_time st representation s Hn Ht (s_r s) c) as [R1 R2].
  destruct (run_states st representation s (s_r s) c) as [here c1].
  cbn [fst snd] in *. specialize (IH c1).
  destruct (walk_states st representation ss c1) as [rest c2].
  cbn [fst snd] in *. rewrite map_app, R1, IH, R2. reflexivity.
Qed.

(** X12. A timeline walk over a template addressed by [$Time$], with
    neither [$Number$] nor a width-formatted number: the time written
    into the URL of a segment is [presentationTimeOffset] plus the tick
    durations of all the segments before it, over all the runs; the URLs
    follow the runs in order. *)
Theorem walk_s_time_addresses tl st representation stream kept g :
  segments stream = kept ++ [g] ->
  Str.contains "$Number%" (st_get_media_url st) = false ->
  Str.contains "$Number$" (after_bandwidth st representation) = false ->
  Str.contains "$Time$" (time_template st representation) = true ->
  forallb (fun s => is_some (run_interval st s)) (tl_S tl) = true ->
  exists stream0 stream' media g',
    walk_s_init fix_url st representation stream = Ok stream0 /\
    walk_s fix_url tl st representation stream = Ok stream' /\
    segments stream' = removelast (segments stream0) ++ media ++ [g'] /\
    map url media
    = map (fun t =>
             fix_url (home_url stream) (base_url stream)
               (Str.replace "$Time$" (Str.of_Z t)
                  (time_template st representation)))
        (segment_times (st_presentationTimeOffset st) (tl_S tl)).
Proof.
  intros E Hm Hn Ht Hdef.
  destruct (walk_s_states tl st representation stream kept g E Hm Hdef)
    as (s0 & s' & media & g' & R0 & R & Es & U).
  exists s0, s', media, g'. repeat split; auto.
  rewrite U.
  change (st_presentationTimeOffset st)
    with (time_offset {| time_offset := st_presentationTimeOffset st;
                         start_number := st_startNumber st |}) at 2.
  rewrite <- (walk_states_time st representation Hn Ht), map_map.
  apply map_ext. intros [s c]. unfold url_for. cbn [fst snd].
  now rewrite (walk_s_plain_time st representation s c Hn Ht).
Qed.

Lemma walk_s_plain_number st representation s c :
  Str.contains "$Number$" (after_bandwidth st representation) = true ->
  start_number (snd (walk_s_plain st representation s c)) = start_number c + 1.
Proof.
  intros Hn. unfold walk_s_plain. rewrite Hn.
  now destruct (Str.contains "$Time$" _).
Qed.

Lemma run_states_number st representation s :
  Str.contains "$Number$" (after_bandwidth st representation) = true ->
  forall n c,
    map (fun x => start_number (snd x)) (fst (run_states st representation s n c))
    = map (fun k => start_number c + Z.of_nat k) (seq 0 n) /\
    start_number (snd (run_states st representation s n c))
    = start_number c + Z.of_nat n.
Proof.
  intros Hn. induction n as [|n IH]; intros c.
  - cbn. split; [reflexivity|lia].
  - cbn [run_states].
    pose proof (walk_s_plain_number st representation s c Hn) as P.
    specialize (IH (snd (walk_s_plain st representation s c))).
    destruct (run_states _ _ _ _ _) as [rest c']. cbn [fst snd] in *.
    destruct IH as [IH1 IH2]. split.
    + rewrite map_seq_succ. cbn [map snd]. f_equal; [lia|].
      rewrite IH1, P. apply map_ext. intros k. lia.
    + rewrite IH2, P. lia.
Qed.

Lemma walk_states_number st representation :
  Str.contains "$Number$" (after_bandwidth st representation) = true ->
  forall ss c,
    map (fun x => start_number (snd x)) (fst (walk_states st representation ss c))
    = map (fun k => start_number c + Z.of_nat k) (seq 0 (list_sum (map s_r ss))).
Proof.
  intros Hn. induction ss as [|s ss IH]; intros c; [reflexivity|].
  cbn [walk_states map list_sum fold_right].
  destruct (run_states_number st representation s Hn (s_r s) c) as [R1 R2].
  destruct (run_states st representation s (s_r s) c) as [here c1].
  cbn [fst snd] in *. specialize (IH c1).
  destruct (walk_states st representation ss c1) as [rest c2].
  cbn [fst snd] in *.
  change (fold_right Nat.add 0%nat (map s_r ss)) with (list_sum (map s_r ss)).
  rewrite map_app, R1, IH, R2, map_seq_add. f_equal.
  apply map_ext. intros k. lia.
Qed.

Lemma walk_s_plain_numbered st representation s c :
  Str.contains "$Number$" (after_bandwidth st representation) = true ->
  Str.contains "$Time$" (number_template st representation (start_number c))
    = false ->
  fst (walk_s_plain st representation s c)
  = number_template st representation (start_number c).
Proof.
  intros Hn Ht. unfold walk_s_plain, number_template in *.
  rewrite Hn. cbv zeta. cbn [fst snd]. now rewrite Ht.
Qed.

(** X13. A timeline walk over a template addressed by [$Number$], without
    width-formatted number and without [$Time$] once the number and the
    id are written: the [k]-th media segment, counted over all the runs,
    has the URL of the template with the decimal text of
    [startNumber + k] in the place of [$Number$]; the numbers run on from
    one run to the next. *)
Theorem walk_s_numbers_run_on tl st representation stream kept g :
  segments stream = kept ++ [g] ->
  Str.contains "$Number%" (st_get_media_url st) = false ->
  Str.contains "$Number$" (after_bandwidth st representation) = true ->
  forallb (fun n =>
             negb (Str.contains "$Time$" (number_template st representation n)))
    (map (fun k => st_startNumber st + Z.of_nat k)
         (seq 0 (list_sum (map s_r (tl_S tl))))) = true ->
  forallb (fun s => is_some (run_interval st s)) (tl_S tl) = true ->
  exists stream0 stream' media g',
    walk_s_init fix_url st representation stream = Ok stream0 /\
    walk_s fix_url tl st representation stream = Ok stream' /\
    segments stream' = removelast (segments stream0) ++ media ++ [g'] /\
    map url media
    = map (fun n =>
             fix_url (home_url stream) (base_url stream)
               (number_template st representation n))
        (map (fun k => st_startNumber st + Z.of_nat k)
             (seq 0 (list_sum (map s_r (tl_S tl))))).
Proof.
  intros E Hm Hn Ht Hdef.
  destruct (walk_s_states tl st representation stream kept g E Hm Hdef)
    as (s0 & s' & media & g' & R0 & R & Es & U).
  exists s0, s', media, g'.
  split; [exact R0|]. split; [exact R|]. split; [exact Es|].
  pose proof (walk_states_number st representation Hn (tl_S tl)
                {| time_offset := st_presentationTimeOffset st;
                   start_number := st_startNumber st |}) as N.
  cbn [start_number] in N. rewrite <- N in Ht |- *. rewrite U, map_map.
  apply map_ext_in. intros [s c] Hin. unfold url_for. cbn [fst snd].
  rewrite walk_s_plain_numbered; [reflexivity|exact Hn|].
  rewrite forallb_forall in Ht.
  apply negb_true_iff, Ht.
  apply (in_map (fun x => start_number (snd x))) in Hin. exact Hin.
Qed.

(** ** The order and the numbering of the streams *)

Lemma bind_ret_l {A B} (a : A) (f : A -> M B) : bind (ret a) f = f a.
Proof. unfold bind, ret. now destruct (f a). Qed.

Lemma bind_ret_r {A} (m : M A) : bind m ret = m.
Proof. destruct m as [out [a|e]]; cbn; [|reflexivity]. now rewrite app_nil_r. Qed.

Lemma bind_assoc {A B C} (m : M A) (f : A -> M B) (g : B -> M C) :
  bind (bind m f) g = bind m (fun a => bind (f a) g).
Proof.
  destruct m as [out [a|e]]; cbn; [|reflexivity].
  destruct (f a) as [out1 [b|e]]; cbn; [|reflexivity].
  destruct (g b) as [out2 r]. now rewrite app_assoc.
Qed.

Lemma bind_ext_ok {A B} (m : M A) (f g : A -> M B) :
  (forall a, outcome m = Ok a -> f a = g a) -> bind m f = bind m g.
Proof.
  destruct m as [out [a|e]]; cbn; [|reflexivity].
  intros H. now rewrite (H a eq_refl).
Qed.

Lemma bind_ext {A B} (m : M A) (f g : A -> M B) :
  (forall a, f a = g a) -> bind m f = bind m g.
Proof. intros H. apply bind_ext_ok. auto. Qed.

Lemma walk_sources_length uris xs streams :
  outcome (walk_sources fix_url args_save_dir uris xs) = Ok streams ->
  List.length streams = List.length xs.
Proof.
  revert streams. induction xs as [|x xs IH]; intros streams; cbn [walk_sources].
  - cbn. now intros [= <-].
  - intros H. apply bind_ok in H as (s & _ & H).
    apply bind_ok in H as (l & Hl & H). cbn in H. injection H as <-.
    cbn [List.length]. f_equal. auto.
Qed.

Lemma walk_sources_app uris xs ys :
  walk_sources fix_url args_save_dir uris (xs ++ ys)
  = (a <- walk_sources fix_url args_save_dir uris xs ;;
     b <- walk_sources fix_url args_save_dir uris ys ;;
     ret (a ++ b)%list).
Proof.
  induction xs as [|x xs IH]; cbn [walk_sources app].
  - rewrite bind_ret_l. symmetry. apply bind_ret_r.
  - rewrite bind_assoc. apply bind_ext. intros s.
    rewrite IH, !bind_assoc. apply bind_ext. intros a.
    rewrite bind_ret_l, bind_assoc. apply bind_ext. intros b.
    now rewrite bind_ret_l.
Qed.

Lemma numbered_from_length k srcs :
  List.length (numbered_from k srcs) = List.length srcs.
Proof.
  unfold numbered_from. rewrite length_combine, length_seq. apply Nat.min_id.
Qed.

Lemma numbered_from_app k xs ys :
  numbered_from k (xs ++ ys)
  = (numbered_from k xs ++ numbered_from (k + List.length xs) ys)%list.
Proof.
  unfold numbered_from. revert k.
  induction xs as [|x xs IH]; intros k; cbn [List.length app seq combine].
  - now rewrite Nat.add_0_r.
  - f_equal. rewrite IH.
    now replace (k + Datatypes.S (List.length xs))%nat
      with (Datatypes.S k + List.length xs)%nat by lia.
Qed.

Lemma walk_representation_loop_flat a p uris representations :
  forall sidx streams,
    walk_representation_loop fix_url args_save_dir a p uris
      (as_SegmentTemplate a) representations sidx streams
    = (l <- walk_sources fix_url args_save_dir uris
              (numbered_from sidx (map (fun r => (p, a, r)) representations)) ;;
       ret (streams ++ l)%list).
Proof.
  induction representations as [|r rest IH]; intros sidx streams.
  - cbn. now rewrite app_nil_r.
  - cbn [walk_representation_loop map]. unfold numbered_from.
    cbn [List.length seq combine walk_sources stream_of].
    rewrite bind_assoc. apply bind_ext. intros s.
    rewrite IH, bind_assoc. unfold numbered_from.
    replace (sidx + 1)%nat with (Datatypes.S sidx) by lia.
    apply bind_ext. intros l. rewrite bind_ret_l.
    now rewrite <- app_assoc.
Qed.

Lemma walk_adaptationset_loop_flat p uris sidx adaptationsets :
  forall streams,
    walk_adaptationset_loop fix_url args_save_dir p sidx uris adaptationsets
      streams
    = (l <- walk_sources fix_url args_save_dir uris
              (numbered_from (sidx + List.length streams)
                 (flat_map (fun a => if is_jpeg a then []
                                     else map (fun r => (p, a, r))
                                              (as_Representation a))
                           adaptationsets)) ;;
       ret (streams ++ l)%list).
Proof.
  induction adaptationsets as [|a rest IH]; intros streams.
  - cbn. now rewrite app_nil_r.
  - cbn [walk_adaptationset_loop flat_map]. destruct (is_jpeg a).
    + apply IH.
    + unfold walk_representation. rewrite walk_representation_loop_flat.
      rewrite numbered_from_app, walk_sources_app, !bind_assoc.
      apply bind_ext_ok. intros l Hl. rewrite bind_ret_l. cbn [app].
      rewrite IH. apply walk_sources_length in Hl.
      rewrite numbered_from_length, length_map in Hl.
      rewrite length_app, length_map, Hl, Nat.add_assoc, bind_assoc.
      apply bind_ext. intros b. now rewrite bind_ret_l, app_assoc.
Qed.

Lemma walk_period_loop_flat uris periods :
  forall streams,
    walk_period_loop fix_url args_save_dir periods uris streams
    = (l <- walk_sources fix_url args_save_dir uris
              (numbered_from (List.length streams) (sources periods)) ;;
       ret (streams ++ l)%list).
Proof.
  induction periods as [|p rest IH]; intros streams.
  - cbn. now rewrite app_nil_r.
  - cbn [walk_period_loop sources flat_map]. unfold walk_adaptationset.
    rewrite walk_adaptationset_loop_flat. cbn [List.length app].
    rewrite Nat.add_0_r. fold (period_sources p). fold (sources rest).
    rewrite numbered_from_app, walk_sources_app, !bind_assoc.
    apply bind_ext_ok. intros l Hl. rewrite bind_ret_l.
    rewrite IH. apply walk_sources_length in Hl.
    rewrite numbered_from_length in Hl.
    rewrite length_app, Hl, bind_assoc.
    apply bind_ext. intros b. now rewrite bind_ret_l, app_assoc.
Qed.

Lemma walk_sources_ok uris xs :
  forall out streams,
    walk_sources fix_url args_save_dir uris xs = (out, Ok streams) ->
    Forall2 (fun x stream =>
               outcome (stream_of fix_url args_save_dir uris x) = Ok stream)
            xs streams /\
    out = flat_map (fun x => printed (stream_of fix_url args_save_dir uris x)) xs.
Proof.
  induction xs as [|x xs IH]; intros out streams; cbn [walk_sources flat_map].
  - cbn. intros [= <- <-]. split; [constructor|reflexivity].
  - destruct (stream_of fix_url args_save_dir uris x) as [o1 [s|e]] eqn:E1;
      cbn [bind]; [|discriminate].
    destruct (walk_sources fix_url args_save_dir uris xs) as [o2 [l|e]] eqn:E2;
      cbn [bind ret]; [|discriminate].
    intros [= <- <-]. destruct (IH o2 l eq_refl) as [F Ho]. split.
    + constructor; [now rewrite E1|exact F].
    + cbn [printed fst]. now rewrite app_nil_r, Ho.
Qed.

(** X14. The walk over the Periods, their AdaptationSets and their
    Representations, when it raises nothing, returns one stream for each
    Representation of an AdaptationSet that is not [image/jpeg], in
    document order; the stream at position [k] is the one constructed
    with the index [k], so the indices run on across AdaptationSets and
    Periods and a skipped AdaptationSet uses none; the diagnostics are
    printed in the same order. *)
Theorem walk_period_loop_streams uris periods out streams :
  walk_period_loop fix_url args_save_dir periods uris [] = (out, Ok streams) ->
  Forall2 (fun x stream =>
             outcome (stream_of fix_url args_save_dir uris x) = Ok stream)
          (numbered_from 0 (sources periods)) streams /\
  out = flat_map (fun x => printed (stream_of fix_url args_save_dir uris x))
          (numbered_from 0 (sources periods)).
Proof.
  rewrite walk_period_loop_flat. cbn [List.length app].
  rewrite bind_ret_r. apply walk_sources_ok.
Qed.

(** ** The merge without a clash of keys *)

Lemma merge_streams_fresh (streams : list DASHStream) :
  forall d : Dict,
    NoDup (map fst d ++ map skey streams) ->
    merge_streams streams d = (d ++ map (fun s => (skey s, s)) streams)%list.
Proof.
  induction streams as [|s rest IH]; intros d H; cbn [merge_streams map].
  - now rewrite app_nil_r.
  - cbn [map] in H.
    assert (Hm : dict_mem (skey s) d = false).
    { destruct (dict_mem (skey s) d) eqn:E; [|reflexivity].
      apply NoDup_remove_2 in H. exfalso. apply H. apply in_or_app. left.
      clear - E. induction d as [|[k v] d IHd]; [discriminate|].
      cbn [dict_mem map fst In] in *. apply orb_true_iff in E as [E|E].
      - left. now apply skey_eqb_eq.
      - right. auto. }
    rewrite Hm, IH.
    + now rewrite <- app_assoc.
    + rewrite map_app. cbn [map fst]. rewrite <- app_assoc. exact H.
Qed.

(** X15. The merge of lines 66 to 72 changes nothing when no two streams
    have the same key: the streams come back as they were, in the same
    order. *)
Theorem merge_streams_distinct (streams : list DASHStream) :
  NoDup (map skey streams) ->
  map snd (merge_streams streams []) = streams.
Proof.
  intros H. rewrite merge_streams_fresh by exact H. cbn [app].
  rewrite map_map. cbn [snd]. apply map_id.
Qed.

(** ** The diagnostics *)

Lemma walk_segmenttimeline_printed st representation stream :
  printed (walk_segmenttimeline fix_url st representation stream) <> [] ->
  exists msg,
    walk_segmenttimeline fix_url st representation stream = ([msg], Ok stream) /\
    In msg diagnostics.
Proof.
  unfold walk_segmenttimeline, diagnostics.
  destruct (st_SegmentTimeline st) as [|tl [|tl' l]]; cbn; intros H.
  - eexists. split; [reflexivity|]. cbn. tauto.
  - congruence.
  - eexists. split; [reflexivity|]. cbn. tauto.
Qed.

Lemma walk_segmenttemplate_printed representation period stream :
  printed (walk_segmenttemplate fix_url representation period stream) <> [] ->
  exists msg,
    walk_segmenttemplate fix_url representation period stream
    = ([msg], Ok stream) /\
    In msg diagnostics.
Proof.
  unfold walk_segmenttemplate.
  destruct (rep_SegmentTemplate representation) as [|st [|st' l]].
  - cbn. intros _. eexists. split; [reflexivity|]. cbn. tauto.
  - destruct (st_SegmentTimeline st) eqn:E.
    + cbn. congruence.
    + apply walk_segmenttimeline_printed.
  - cbn. intros _. eexists. split; [reflexivity|]. cbn. tauto.
Qed.

Lemma walk_templates_printed segmenttemplates representation period stream :
  printed (walk_templates fix_url segmenttemplates representation period stream)
  <> [] ->
  exists msg,
    walk_templates fix_url segmenttemplates representation period stream
    = ([msg], Ok stream) /\
    In msg diagnostics.
Proof.
  unfold walk_templates. destruct segmenttemplates as [|st0 others].
  - apply walk_segmenttemplate_printed.
  - destruct (_ && _).
    + apply walk_segmenttimeline_printed.
    + cbn. congruence.
Qed.

(** X16. A Representation for which a diagnostic is printed: there is one
    line, and it is one of the three diagnostics of the resolver; nothing
    is raised, and the stream comes back as it was described from the
    attributes, with at most its base URL fixed: none of its segments is
    resolved. *)
Theorem diagnosed_stream_unresolved a p k uris segmenttemplates r :
  printed (walk_representation_body fix_url args_save_dir a p k uris
             segmenttemplates r) <> [] ->
  exists msg stream,
    walk_representation_body fix_url args_save_dir a p k uris
      segmenttemplates r = ([msg], Ok stream) /\
    In msg diagnostics /\
    (stream = describe_stream args_save_dir a k uris r \/
     exists b,
       rep_BaseURL r = [b] /\
       stream = fix_base_url fix_url (innertext b)
                  (describe_stream args_save_dir a k uris r)).
Proof.
  unfold walk_representation_body.
  destruct (rep_BaseURL r) as [|b [|b' l]] eqn:Eb.
  - intros H. apply walk_templates_printed in H as (msg & E & Hm).
    exists msg. eexists. split; [exact E|]. split; [exact Hm|]. now left.
  - destruct (subtitle_role (as_Role a)); [cbn; congruence|].
    destruct (_ && _); [cbn; congruence|].
    intros H. apply walk_templates_printed in H as (msg & E & Hm).
    exists msg. eexists. split; [exact E|]. split; [exact Hm|]. right.
    exists b. split; reflexivity.
  - intros H. apply walk_templates_printed in H as (msg & E & Hm).
    exists msg. eexists. split; [exact E|]. split; [exact Hm|]. now left.
Qed.

End Further.

(** * Runs on concrete manifests *)

(** ** Where the code departs from the specification *)

(** C1. A Representation with computed numbering whose template has no
    initialization URL: [generate_v1] tests the placeholder on [None] and
    the [TypeError] leaves [parse]; under a timeline the same template is
    resolved, [walk_s] testing for [None] first. *)
Theorem parse_raises_without_initialization :
  listings
    (parse join_url "dl" false "manifest.mpd" (Some uris0)
       (single (adaptationset0 video []
          [representation0 None [] [template None "seg-$Number$.m4s" []]])))
  = ([], Err TypeError) /\
  listings
    (parse join_url "dl" false "manifest.mpd" (Some uris0)
       (single (adaptationset0 video [] [representation0 None [] [timed]])))
  = ([], Ok [[("normal", "http://host/dash/seg-0.m4s");
              ("normal", "http://host/dash/seg-2.m4s");
              ("normal", "http://host/dash/seg-4.m4s");
              ("normal", "http://host/dash/seg-6.m4s")]])%string.
Proof. split; vm_compute; reflexivity. Qed.

(** C2. The placeholder [$Number%05d$]: computed numbering writes the
    number on five digits, and the timeline walk raises [ValueError], its
    format specification being the text [>int(length)]. *)
Theorem padded_number_raises_in_timeline :
  listings
    (run (single (adaptationset0 video []
       [representation0 None []
          [template (Some "i.mp4"%string) "seg-$Number%05d$.m4s" []]])))
  = ([], Ok [[("init", "http://host/dash/i.mp4");
              ("normal", "http://host/dash/seg-00001.m4s");
              ("normal", "http://host/dash/seg-00002.m4s");
              ("normal", "http://host/dash/seg-00003.m4s")]])%string /\
  listings
    (run (single (adaptationset0 video []
       [representation0 None []
          [template None "seg-$Number%05d$.m4s" [timeline0]]])))
  = ([], Err ValueError) /\
  Format.format_int 1 ">int(length)" = Err ValueError.
Proof. repeat split; vm_compute; reflexivity. Qed.

(** C3. Two [SegmentTemplate]s under the Representation are reported and
    the stream has no segment; two [SegmentTemplate]s under the
    AdaptationSet, or two [SegmentTimeline]s under its single template,
    are not reported and segments are produced from the first
    template. *)
Theorem adaptationset_ambiguity_not_reported :
  listings
    (run (single (adaptationset0 video []
       [representation0 None [] [numbered; numbered]])))
  = (["please report this DASH content."], Ok [[]])%string /\
  listings
    (run (single (adaptationset0 video [numbered; numbered]
       [representation0 None [] []])))
  = ([], Ok [[("init", "http://host/dash/init-v0.mp4");
              ("normal", "http://host/dash/seg-1.m4s");
              ("normal", "http://host/dash/seg-2.m4s");
              ("normal", "http://host/dash/seg-3.m4s")]])%string /\
  listings
    (run (single (adaptationset0 video
       [template (Some "i.mp4"%string) "seg-$Time$.m4s" [timeline0; timeline0]]
       [representation0 None [] []])))
  = ([], Ok [[("init", "http://host/dash/i.mp4");
              ("normal", "http://host/dash/seg-$Time$.m4s");
              ("normal", "http://host/dash/seg-$Time$.m4s");
              ("normal", "http://host/dash/seg-$Time$.m4s")]])%string.
Proof. repeat split; vm_compute; reflexivity. Qed.

(** C4. A Representation with one [BaseURL] and a [SegmentTemplate] of its
    own, under an AdaptationSet without template and without Role: the
    result is the direct link and the template is not read.  Without the
    [BaseURL] the same template gives its three segments. *)
Theorem direct_link_despite_own_template :
  listings
    (run (single (adaptationset0 video []
       [representation0 None [ {| innertext := "video" |} ] [numbered]])))
  = ([], Ok [[("normal", "http://host/dash/video")]])%string /\
  listings
    (run (single (adaptationset0 video [] [representation0 None [] [numbered]])))
  = ([], Ok [[("init", "http://host/dash/init-v0.mp4");
              ("normal", "http://host/dash/seg-1.m4s");
              ("normal", "http://host/dash/seg-2.m4s");
              ("normal", "http://host/dash/seg-3.m4s")]])%string.
Proof. split; vm_compute; reflexivity. Qed.

(** C9. A manifest with one Period, where neither the Period nor the
    manifest gives a duration: the node of the manifest carries its
    presentation duration with the value [None], [hasattr] holds of it,
    and line 51 stores that [None] where [0.0] is expected; computed
    numbering then divides [None] and the [TypeError] leaves [parse].
    The [0.0] of line 53 is stored for an object without the attribute
    only; a presentation duration that the manifest gives is stored. *)
Theorem backfill_stores_none_duration :
  map period_duration (backfill_duration (mpd0 [undated]) [undated]) = [None] /\
  listings
    (parse join_url "dl" false "manifest.mpd" (Some uris0) (mpd0 [undated]))
  = ([], Err TypeError) /\
  map period_duration (backfill_duration (unset [undated]) [undated])
  = [Some Float.zero] /\
  map period_duration (backfill_duration (dated [undated]) [undated])
  = [Some (Float.of_Z 30)].
Proof. repeat split; vm_compute; reflexivity. Qed.

(** C5, as stated, fails: a Representation whose own [mimeType] is
    [image/jpeg], under an AdaptationSet that declares none, has
    [image/jpeg] as resolved type and a stream is produced for it. *)
Lemma jpeg_representation_yields_stream :
  resolved_mimeType untyped_set thumbnail = Some "image/jpeg"%string /\
  as_Representation untyped_set = [thumbnail] /\
  match outcome (run (single untyped_set)) with
  | Ok [s] =>
      skey s = (as_id untyped_set, rep_id thumbnail) /\
      stream_type s = Some "image/jpeg"%string /\
      List.length (segments s) = 4%nat
  | _ => False
  end.
Proof. vm_compute. repeat split; reflexivity. Qed.

(** ** Instances of the theorems *)

(** A Period with a movie, thumbnails and a movie again. *)
Lemma jpeg_adaptationset_skipped_witness :
  as_mimeType thumbnails = Some "image/jpeg"%string /\
  walk_adaptationset_loop join_url "dl" (period0 []) 0 uris0
    ([movie] ++ thumbnails :: [movie]) []
  = walk_adaptationset_loop join_url "dl" (period0 []) 0 uris0
      ([movie] ++ [movie]) [].
Proof.
  split; [reflexivity|].
  apply (jpeg_adaptationset_skipped join_url "dl" (period0 []) 0%nat uris0
           [movie] thumbnails [movie] []).
  reflexivity.
Defined.

(** The timeline scenario of the specification: runs [{d:2, r:3}] and
    [{d:4, r:1}]. *)
Lemma walk_s_emits_witness :
  segments stream0 = [] ++ [opened stream0 0] /\
  Str.contains "$Number%" (st_get_media_url timed) = false /\
  forallb (fun s => is_some (run_interval timed s)) (tl_S timeline0) = true /\
  exists s0 s' media g',
    walk_s_init join_url timed (representation0 None [] [timed]) stream0 = Ok s0 /\
    walk_s join_url timeline0 timed (representation0 None [] [timed]) stream0
      = Ok s' /\
    segments s' = removelast (segments s0) ++ media ++ [g'] /\
    List.length media = list_sum (map s_r (tl_S timeline0)) /\
    map duration media =
      flat_map (fun s => repeat (run_interval timed s) (s_r s)) (tl_S timeline0).
Proof.
  split; [vm_compute; reflexivity|]. split; [vm_compute; reflexivity|].
  split; [vm_compute; reflexivity|].
  apply (walk_s_emits join_url timeline0 timed (representation0 None [] [timed])
           stream0 [] (opened stream0 0)); vm_compute; reflexivity.
Defined.

(** The numbering scenario of the specification: twelve seconds in
    segments of four. *)
Lemma generate_v1_emits_witness :
  segments stream0 = [] ++ [opened stream0 0] /\
  st_get_url numbered = Some "init-$RepresentationID$.mp4"%string /\
  period_duration (period0 []) = Some (Float.of_Z 12) /\
  Float.int_truediv (st_duration numbered) (st_timescale numbered)
    = Ok (Float.of_Z 4) /\
  Float.truediv (Float.of_Z 12) (Float.of_Z 4) = Ok (Float.of_Z 3) /\
  Float.round (Float.of_Z 3) = Ok 3 /\
  0 <= 3 /\
  Str.contains "$Number%" (st_get_media_url numbered) = false /\
  exists s' head media g',
    generate_v1 join_url (period0 []) "v0" numbered stream0 = Ok s' /\
    segments s' = head ++ media ++ [g'] /\
    List.length head = 1%nat /\
    Z.of_nat (List.length media) = 3 /\
    map url media
    = map (fun k =>
             join_url (home_url stream0) (base_url stream0)
               (subst "$RepresentationID$" "v0"
                  (Str.replace "$Number$"
                     (Str.of_Z (st_startNumber numbered + Z.of_nat k))
                     (st_get_media_url numbered))))
        (seq 0 (Z.to_nat 3)) /\
    Forall (fun m => duration m = Some (Float.of_Z 4)) (segments s').
Proof.
  repeat (split; [vm_compute; reflexivity|]). split; [lia|].
  split; [vm_compute; reflexivity|].
  apply (generate_v1_emits join_url (period0 []) "v0" numbered stream0 []
           (opened stream0 0) "init-$RepresentationID$.mp4"
           (Float.of_Z 12) (Float.of_Z 4) (Float.of_Z 3) 3
           (fun n => Str.replace "$Number$" (Str.of_Z n)
                       (st_get_media_url numbered)));
    try (vm_compute; reflexivity); [lia|].
  apply decimal_number. vm_compute; reflexivity.
Defined.

(** Two Periods with the same track, merged. *)
Lemma walk_period_merge_witness :
  exists streams,
    outcome (resolve_streams join_url "dl" two_periods uris0) = Ok streams /\
    (List.length (mpd_Period two_periods) = 1%nat \/ false = true ->
     outcome (walk_period join_url "dl" false two_periods uris0) = Ok streams) /\
    (List.length (mpd_Period two_periods) <> 1%nat -> false = false ->
     exists merged,
       outcome (walk_period join_url "dl" false two_periods uris0) = Ok merged /\
       Forall2 (merged_from streams) (first_keys (map skey streams)) merged).
Proof.
  eexists. split; [vm_compute; reflexivity|].
  apply (walk_period_merge join_url "dl" false). vm_compute; reflexivity.
Defined.


(** ** Instances of the further properties *)

(** Two segments that differ in their folder only, both at index 7. *)
Lemma segment_names_distinct_witness :
  0 <= 7 /\
  suffix Seg.init = suffix (Seg.set_folder "dl" Seg.init) /\
  name (Seg.set_index 7 Seg.init)
    = name (Seg.set_index 7 (Seg.set_folder "dl" Seg.init)) /\
  7 = 7.
Proof.
  split; [lia|]. split; [reflexivity|]. split; [reflexivity|].
  apply (segment_names_distinct Seg.init (Seg.set_folder "dl" Seg.init) 7 7);
    [lia|lia|reflexivity|reflexivity].
Defined.

(** The index 42. *)
Lemma segment_name_reads_back_witness :
  0 <= 42 /\
  exists digits,
    name (Seg.set_index 42 Seg.init) = (digits ++ suffix Seg.init)%string /\
    all_chars Str.is_digit digits = true /\
    Str.int_of_digits digits = 42 /\
    (4 <= String.length digits)%nat /\
    (42 < 10000 -> String.length digits = 4%nat).
Proof.
  split; [lia|]. apply (segment_name_reads_back Seg.init 42). lia.
Defined.

(** A stream without segment, a stream as it is opened, and a stream whose
    last segment has a URL. *)
Lemma trim_stream_cases_witness :
  trim_stream (with_segments [] stream0) = Err IndexError /\
  trim_stream stream0 = Ok (with_segments [] stream0) /\
  trim_stream filled = Ok filled.
Proof.
  split; [|split].
  - apply (proj1 (trim_stream_cases (with_segments [] stream0))). reflexivity.
  - apply (proj1 (proj2 (trim_stream_cases stream0)) [] (opened stream0 0));
      vm_compute; reflexivity.
  - apply (proj2 (proj2 (trim_stream_cases filled)) []
             (DSeg.set_url "http://host/dash/a.m4s" Seg.init)).
    + reflexivity.
    + vm_compute. discriminate.
Defined.

(** A single Period without duration, in a manifest without duration and
    in one of thirty seconds. *)
Lemma backfill_duration_settles_witness :
  (exists p',
     backfill_duration (mpd0 [undated]) [undated] = [p'] /\
     (period_duration p' = None <->
      period_duration undated = None /\
      mpd_mediaPresentationDuration (mpd0 [undated]) = Some None)) /\
  (exists p',
     backfill_duration (dated [undated]) [undated] = [p'] /\
     (period_duration p' = None <->
      period_duration undated = None /\
      mpd_mediaPresentationDuration (dated [undated]) = Some None)).
Proof.
  split.
  - apply (proj2 (proj2 (backfill_duration_settles (mpd0 [undated]) [undated]))).
    reflexivity.
  - apply (proj2 (proj2 (backfill_duration_settles (dated [undated]) [undated]))).
    reflexivity.
Defined.

(** A template with a number on five digits. *)
Lemma generate_v1_succeeds_iff_witness :
  segments stream0 = [] ++ [opened stream0 0] /\
  writes_number (st_get_media_url padded)
    (fun n => "$RepresentationID$/seg-"
              ++ zero_padded (Str.int_of_digits "05") n ++ ".m4s")%string /\
  ((exists stream',
      generate_v1 join_url (period0 []) "v0" padded stream0 = Ok stream') <->
   (exists init D interval q repeat,
      st_get_url padded = Some init /\
      period_duration (period0 []) = Some D /\
      Float.int_truediv (st_duration padded) (st_timescale padded)
        = Ok interval /\
      Float.truediv D interval = Ok q /\
      Float.round q = Ok repeat)).
Proof.
  assert (W : writes_number (st_get_media_url padded)
                (fun n => "$RepresentationID$/seg-"
                          ++ zero_padded (Str.int_of_digits "05") n
                          ++ ".m4s")%string).
  { apply (padded_number _ "$RepresentationID$/seg-" "05" ".m4s");
      try (vm_compute; reflexivity); [discriminate|].
    unfold short_width. cbn. lia. }
  split; [vm_compute; reflexivity|]. split; [exact W|].
  apply (generate_v1_succeeds_iff join_url (period0 []) "v0" padded stream0 []
           (opened stream0 0) _ ltac:(vm_compute; reflexivity) W).
Defined.

(** A timescale of zero, a tick duration of zero, and a Period without
    duration. *)
Lemma generate_v1_raises_witness :
  generate_v1 join_url (period0 []) "v0" stalled stream0
    = Err ZeroDivisionError /\
  generate_v1 join_url (period0 []) "v0" instant stream0
    = Err ZeroDivisionError /\
  generate_v1 join_url undated "v0" numbered stream0 = Err TypeError.
Proof.
  split; [|split].
  - apply (proj1 (generate_v1_raises join_url (period0 []) "v0" stalled stream0
                    [] (opened stream0 0) "i.mp4"
                    ltac:(vm_compute; reflexivity) ltac:(reflexivity))).
    reflexivity.
  - apply (proj1 (proj2 (generate_v1_raises join_url (period0 []) "v0" instant
                           stream0 [] (opened stream0 0) "i.mp4"
                           ltac:(vm_compute; reflexivity) ltac:(reflexivity)))).
    + cbn. lia.
    + reflexivity.
    + reflexivity.
  - apply (proj2 (proj2 (generate_v1_raises join_url undated "v0" numbered
                           stream0 [] (opened stream0 0)
                           "init-$RepresentationID$.mp4"
                           ltac:(vm_compute; reflexivity) ltac:(reflexivity)))
             (Float.of_Z 4)).
    + vm_compute; reflexivity.
    + reflexivity.
Defined.

(** A timeline without entry, and a timescale of zero. *)
Lemma walk_s_edges_witness :
  walk_s join_url {| tl_S := [] |} timed (representation0 None [] [timed]) stream0
    = walk_s_init join_url timed (representation0 None [] [timed]) stream0 /\
  walk_s join_url timeline0 stalled (representation0 None [] [stalled]) stream0
    = Err ZeroDivisionError.
Proof.
  split.
  - apply (proj1 (walk_s_edges join_url {| tl_S := [] |} timed
                    (representation0 None [] [timed]) stream0 []
                    (opened stream0 0))).
    reflexivity.
  - apply (proj2 (walk_s_edges join_url timeline0 stalled
                    (representation0 None [] [stalled]) stream0 []
                    (opened stream0 0))).
    + vm_compute; reflexivity.
    + vm_compute. discriminate.
    + reflexivity.
Defined.

(** A number on five digits, and a plain number. *)
Lemma re_number_fmt_spec_witness :
  ("05"%string <> EmptyString /\
   all_chars Str.is_digit "05" = true /\
   Str.contains ("$Number%" ++ "05" ++ "d$") "seg-$Number%05d$.m4s" = true) /\
  re_number_fmt "seg-$Number$.m4s" = None /\
  is_some (re_number_fmt ("seg-" ++ "$Number%" ++ "05" ++ "d$" ++ ".m4s")) = true.
Proof.
  split; [|split].
  - apply (proj1 re_number_fmt_spec "seg-$Number%05d$.m4s" "05").
    vm_compute; reflexivity.
  - apply (proj1 (proj2 re_number_fmt_spec) "seg-$Number$.m4s").
    vm_compute; reflexivity.
  - apply (proj2 (proj2 re_number_fmt_spec) "seg-" "05" ".m4s").
    + vm_compute; reflexivity.
    + discriminate.
    + vm_compute; reflexivity.
Defined.

(** An initialization URL of an audio track, and one of a video track. *)
Lemma re_audio_lang_sound_witness :
  (mem_char ")" "eng" = false /\ mem_char Str.newline "eng" = false /\
   Str.contains ("as=audio_" ++ "eng" ++ ")") "Q(128000)/F(as=audio_eng)/init"
     = true) /\
  re_audio_lang "Q(128000)/F(video)/init" = None.
Proof.
  split.
  - apply (proj1 re_audio_lang_sound "Q(128000)/F(as=audio_eng)/init" "eng").
    vm_compute; reflexivity.
  - apply (proj2 re_audio_lang_sound "Q(128000)/F(video)/init").
    vm_compute; reflexivity.
Defined.

(** The number 7 on five digits, after the id of the Representation. *)
Lemma generate_v1_pads_number_witness :
  st_get_media_url padded
    = ("$RepresentationID$/seg-" ++ "$Number%" ++ "05" ++ "d$" ++ ".m4s")%string /\
  (String.length "05" <= 6)%nat /\
  generate_v1_media_url "v0" padded 7
  = Ok (subst "$RepresentationID$" "v0"
          ("$RepresentationID$/seg-"
           ++ Str.repeat_char "0"
                (Z.to_nat (Str.int_of_digits "05")
                 - String.length (Str.of_Z 7))
           ++ Str.of_Z 7 ++ ".m4s"))%string /\
  subst "$RepresentationID$" "v0"
    ("$RepresentationID$/seg-"
     ++ Str.repeat_char "0"
          (Z.to_nat (Str.int_of_digits "05") - String.length (Str.of_Z 7))
     ++ Str.of_Z 7 ++ ".m4s")
  = "v0/seg-00007.m4s"%string.
Proof.
  split; [reflexivity|]. split; [cbn; lia|]. split; [|vm_compute; reflexivity].
  apply (generate_v1_pads_number "v0" padded "$RepresentationID$/seg-" "05"
           ".m4s" 7);
    try (vm_compute; reflexivity); [discriminate|cbn; lia].
Defined.

(** The timeline scenario of the specification, addressed by time. *)
Lemma walk_s_time_addresses_witness :
  segments stream0 = [] ++ [opened stream0 0] /\
  Str.contains "$Time$" (time_template timed (representation0 None [] [timed]))
    = true /\
  exists s0 s' media g',
    walk_s_init join_url timed (representation0 None [] [timed]) stream0 = Ok s0 /\
    walk_s join_url timeline0 timed (representation0 None [] [timed]) stream0
      = Ok s' /\
    segments s' = removelast (segments s0) ++ media ++ [g'] /\
    map url media
    = map (fun t =>
             join_url (home_url stream0) (base_url stream0)
               (Str.replace "$Time$" (Str.of_Z t)
                  (time_template timed (representation0 None [] [timed]))))
        (segment_times (st_presentationTimeOffset timed) (tl_S timeline0)).
Proof.
  split; [vm_compute; reflexivity|]. split; [vm_compute; reflexivity|].
  apply (walk_s_time_addresses join_url timeline0 timed
           (representation0 None [] [timed]) stream0 [] (opened stream0 0));
    vm_compute; reflexivity.
Defined.

(** The same timeline, addressed by number. *)
Lemma walk_s_numbers_run_on_witness :
  segments stream0 = [] ++ [opened stream0 0] /\
  Str.contains "$Number$"
    (after_bandwidth counted (representation0 None [] [counted])) = true /\
  exists s0 s' media g',
    walk_s_init join_url counted (representation0 None [] [counted]) stream0
      = Ok s0 /\
    walk_s join_url timeline0 counted (representation0 None [] [counted]) stream0
      = Ok s' /\
    segments s' = removelast (segments s0) ++ media ++ [g'] /\
    map url media
    = map (fun n =>
             join_url (home_url stream0) (base_url stream0)
               (number_template counted (representation0 None [] [counted]) n))
        (map (fun k => st_startNumber counted + Z.of_nat k)
             (seq 0 (list_sum (map s_r (tl_S timeline0))))).
Proof.
  split; [vm_compute; reflexivity|]. split; [vm_compute; reflexivity|].
  apply (walk_s_numbers_run_on join_url timeline0 counted
           (representation0 None [] [counted]) stream0 [] (opened stream0 0));
    vm_compute; reflexivity.
Defined.

(** Two Periods, with thumbnails between the two movies of the first. *)
Lemma walk_period_loop_streams_witness :
  exists out streams,
    walk_period_loop join_url "dl" (mpd_Period mixed) uris0 [] = (out, Ok streams) /\
    List.length streams = 3%nat /\
    Forall2 (fun x stream =>
               outcome (stream_of join_url "dl" uris0 x) = Ok stream)
            (numbered_from 0 (sources (mpd_Period mixed))) streams /\
    out = flat_map (fun x => printed (stream_of join_url "dl" uris0 x))
            (numbered_from 0 (sources (mpd_Period mixed))).
Proof.
  eexists. eexists. split; [vm_compute; reflexivity|].
  split; [reflexivity|].
  apply (walk_period_loop_streams join_url "dl" uris0 (mpd_Period mixed)).
  vm_compute; reflexivity.
Defined.

(** Two tracks with different keys. *)
Lemma merge_streams_distinct_witness :
  NoDup (map skey [stream0; stream1]) /\
  map snd (merge_streams [stream0; stream1] []) = [stream0; stream1].
Proof.
  assert (H : NoDup (map skey [stream0; stream1])).
  { vm_compute. constructor.
    - intros [H|[]]. discriminate H.
    - constructor; [intros []|constructor]. }
  split; [exact H|].
  apply (merge_streams_distinct [stream0; stream1] H).
Defined.

(** A Representation without template and without [BaseURL]. *)
Lemma diagnosed_stream_unresolved_witness :
  printed (walk_representation_body join_url "dl"
             (adaptationset0 video [] [bare]) (period0 []) 0 uris0 [] bare)
    = ["stream has no SegmentTemplate between Representation tag."%string] /\
  exists msg stream,
    walk_representation_body join_url "dl" (adaptationset0 video [] [bare])
      (period0 []) 0 uris0 [] bare = ([msg], Ok stream) /\
    In msg diagnostics /\
    (stream = describe_stream "dl" (adaptationset0 video [] [bare]) 0 uris0 bare \/
     exists b,
       rep_BaseURL bare = [b] /\
       stream = fix_base_url join_url (innertext b)
                  (describe_stream "dl" (adaptationset0 video [] [bare]) 0 uris0
                     bare)).
Proof.
  split; [vm_compute; reflexivity|].
  apply (diagnosed_stream_unresolved join_url "dl"
           (adaptationset0 video [] [bare]) (period0 []) 0%nat uris0 [] bare).
  vm_compute. discriminate.
Defined.
